(** * ad_renamerv2: naming engine, group sorter, mutation protocol and table
      projection of the review page

    Shallow embedding of the front end's logic:
    - [AssetTable] (the component file): [generateAdName],
      [generateNewFileName], the row flattening, the [seenGroups] render
      loop and the move drop-down;
    - [ReviewPage.tsx]: [getFirstFilename], [extractNumber], the
      [sortedGroups] comparator, the mutation handlers and the
      [BulkApplyToolbar] start-number field;
    - [api/client.ts]: the requests the handlers issue.

    JavaScript strings are modelled as [string] (one [ascii] per code
    unit), integral JavaScript numbers as [Z]. *)

From Stdlib Require Import ZArith String Ascii List Lia DecimalString.
From Stdlib Require Import Permutation Sorted DecimalZ.
From stdpp Require Import gmap strings list.

Open Scope string_scope.
Open Scope list_scope.
Open Scope Z_scope.

(** ** JavaScript built-ins used by the source *)

Module JS.

(** Truthiness of a string: only the empty string is falsy. *)
Definition truthy (s : string) : bool :=
  match s with
  | EmptyString => false
  | String _ _ => true
  end.

(** [String(n)] for an integral number: all its decimal digits, which is
    what [String] prints below 10^21 (from there on it switches to
    exponent form). *)
Definition String_of (n : Z) : string :=
  NilZero.string_of_int (Z.to_int n).

Fixpoint repeat_char (c : ascii) (n : nat) : string :=
  match n with
  | O => EmptyString
  | S k => String c (repeat_char c k)
  end.

(** [s.padStart(targetLength, c)] for a one-character pad string. *)
Definition padStart (s : string) (targetLength : nat) (c : ascii) : string :=
  repeat_char c (targetLength - String.length s) +:+ s.

(** [parts.join(sep)]. *)
Fixpoint join (sep : string) (parts : list string) : string :=
  match parts with
  | [] => EmptyString
  | [p] => p
  | p :: ps => p +:+ sep +:+ join sep ps
  end.

(** [s.split(c)] for a one-character separator: never the empty array. *)
Fixpoint split (sep : ascii) (s : string) : list string :=
  match s with
  | EmptyString => [EmptyString]
  | String c r =>
      if Ascii.eqb c sep then EmptyString :: split sep r
      else match split sep r with
           | h :: t => String c h :: t
           | [] => [String c EmptyString]
           end
  end.

(** [arr.pop()]: the last element, [undefined] on the empty array. *)
Definition pop (arr : list string) : option string := last arr.

(** [x || dflt] for [x : string | undefined]. *)
Definition or_else (x : option string) (dflt : string) : string :=
  match x with
  | Some s => if truthy s then s else dflt
  | None => dflt
  end.

Definition is_underscore (c : ascii) : bool := Ascii.eqb c "_"%char.

(** [s.replace(/__+/g, '_')]: scanning from the left, a match starts at
    an underscore that is followed by another one, greedily takes every
    underscore after it and is replaced by one underscore; scanning
    resumes behind the match. [replace_runs] is the scanner outside a
    match, [in_run] the scanner inside one. *)
Fixpoint replace_runs (s : string) : string :=
  match s with
  | String c1 ((String c2 r) as t) =>
      if is_underscore c1 && is_underscore c2
      then String "_"%char (in_run r)
      else String c1 (replace_runs t)
  | _ => s
  end
with in_run (s : string) : string :=
  match s with
  | EmptyString => EmptyString
  | String c r =>
      if is_underscore c then in_run r
      else String c (replace_runs r)
  end.

Definition is_digit (c : ascii) : bool :=
  (48 <=? Z.of_N (N_of_ascii c)) && (Z.of_N (N_of_ascii c) <=? 57).

Definition digit_value (c : ascii) : Z := Z.of_N (N_of_ascii c) - 48.

(** The leading run of ASCII digits of [s] (the capture of [/^(\d+)/]). *)
Fixpoint leading_digits (s : string) : string :=
  match s with
  | EmptyString => EmptyString
  | String c r => if is_digit c then String c (leading_digits r) else EmptyString
  end.

(** [parseInt(ds, 10)] on a string of decimal digits, read left to right. *)
Fixpoint parse_digits (acc : Z) (ds : string) : Z :=
  match ds with
  | EmptyString => acc
  | String c r => parse_digits (10 * acc + digit_value c) r
  end.

End JS.

(** ** Data model (the fields of [../types] that the code reads) *)

Inductive AssetType := IMG | VID.

Definition asset_type_str (t : AssetType) : string :=
  match t with
  | IMG => "IMG"
  | VID => "VID"
  end.

Record Asset := {
  asset_id : string;
  name : string;
  asset_type : AssetType
}.

Record ProcessedAsset := {
  asset : Asset;
  placement : string
}.

Record AdGroup := {
  group_id : string;
  ad_number : Z;
  campaign : string;
  product : string;
  format_token : string;
  angle : string;
  hook : string;
  creator : string;
  offer : bool;
  date : option string;
  assets : list ProcessedAsset
}.

Record GroupedAssets := {
  groups : list AdGroup;
  ungrouped : list ProcessedAsset
}.

(** ** Naming engine ([AssetTable]) *)

Module Naming.

(** [String(group.ad_number).padStart(3, '0')]. *)
Definition adNum (g : AdGroup) : string :=
  JS.padStart (JS.String_of (ad_number g)) 3 "0"%char.

(** [if (cond) parts.push(x)] on the [parts] array. *)
Definition push_if (cond : bool) (x : string) (parts : list string) : list string :=
  if cond then parts ++ [x] else parts.

Definition push (x : string) (parts : list string) : list string := parts ++ [x].

(** The [parts] array of [generateAdName] after its last push. *)
Definition name_parts (g : AdGroup) : list string :=
  let parts := [adNum g] in
  let parts := push_if (JS.truthy (campaign g)) (campaign g) parts in
  let parts := push_if (JS.truthy (product g)) (product g) parts in
  let parts := push (format_token g) parts in
  let parts := push_if (JS.truthy (angle g)) (angle g) parts in
  let parts := push_if (JS.truthy (hook g)) (hook g) parts in
  let parts := push_if (JS.truthy (creator g)) (creator g) parts in
  let parts := push_if (offer g) "Offer" parts in
  let parts := match date g with
               | Some d => push_if (JS.truthy d) d parts
               | None => parts
               end in
  parts.

Definition generateAdName (g : AdGroup) : string :=
  JS.replace_runs (JS.join "_" (name_parts g)).

Definition generateNewFileName (g : AdGroup) (a : ProcessedAsset) : string :=
  let ext := JS.or_else (JS.pop (JS.split "."%char (name (asset a)))) "" in
  adNum g +:+ "_" +:+ asset_type_str (asset_type (asset a)) +:+ "_"
    +:+ placement a +:+ "." +:+ ext.

End Naming.

Definition scenario_group : AdGroup :=
  {| group_id := "g3"; ad_number := 3; campaign := "Q4Launch"; product := "";
     format_token := "VID"; angle := "Hook1"; hook := ""; creator := "Jess";
     offer := true; date := None; assets := [] |}.

Definition raw_clip : ProcessedAsset :=
  {| asset := {| asset_id := "a1"; name := "raw_clip.mov"; asset_type := VID |};
     placement := "story" |}.

Definition clip_no_ext : ProcessedAsset :=
  {| asset := {| asset_id := "a2"; name := "clip"; asset_type := VID |};
     placement := "story" |}.

Definition group12 : AdGroup :=
  {| group_id := "g12"; ad_number := 12; campaign := ""; product := "";
     format_token := "VID"; angle := ""; hook := ""; creator := "";
     offer := false; date := None; assets := [raw_clip; clip_no_ext] |}.

(** ** Group sorter ([ReviewPage]) *)

Module Sorter.

Definition getFirstFilename (group : AdGroup) : string :=
  match assets group with
  | [] => ""
  | a :: _ => name (asset a)
  end.

(** [extractNumber]: [None] stands for [Infinity], the value returned when
    [/^(\d+)/] does not match. The digits are read as an exact integer;
    a JavaScript number is exact below [2^53] (see [exact_name]). *)
Definition extractNumber (filename : string) : option Z :=
  let ds := JS.leading_digits filename in
  if JS.truthy ds then Some (JS.parse_digits 0 ds) else None.

(** Names whose leading number, if any, a double represents exactly. *)
Definition exact_name (filename : string) : bool :=
  match extractNumber filename with
  | Some n => n <? 2 ^ 53
  | None => true
  end.

Section WithCollation.

(** [a.localeCompare(b)] of the runtime: negative, zero or positive. *)
Variable localeCompare : string -> string -> Z.

(** The comparator handed to [sort]. *)
Definition compareGroups (a b : AdGroup) : Z :=
  let aName := getFirstFilename a in
  let bName := getFirstFilename b in
  let aNum := extractNumber aName in
  let bNum := extractNumber bName in
  match aNum, bNum with
  | Some x, Some y => x - y
  | _, _ => localeCompare aName bName
  end.

End WithCollation.

(** [Array.prototype.sort(cmp)]: the sort is stable, and for a consistent
    comparator its result is the stable sorted permutation, built here by
    insertion from the right ([x] goes before the first element it does
    not exceed). *)
Section Sort.
Context {A : Type} (cmp : A -> A -> Z).

Fixpoint insert_sorted (x : A) (l : list A) : list A :=
  match l with
  | [] => [x]
  | y :: r => if cmp x y <=? 0 then x :: y :: r else y :: insert_sorted x r
  end.

Fixpoint sort (l : list A) : list A :=
  match l with
  | [] => []
  | x :: r => insert_sorted x (sort r)
  end.

(** A consistent comparator on the elements of [l]: any two are
    comparable and the order is transitive. *)
Definition totalb (l : list A) : bool :=
  forallb (fun a => forallb (fun b => (cmp a b <=? 0) || (cmp b a <=? 0)) l) l.

Definition transitiveb (l : list A) : bool :=
  forallb (fun a => forallb (fun b => forallb (fun c =>
    implb ((cmp a b <=? 0) && (cmp b c <=? 0)) (cmp a c <=? 0)) l) l) l.

Definition consistentb (l : list A) : bool := totalb l && transitiveb l.

End Sort.

(** [data?.groups.slice().sort(...) || []]. *)
Definition sortedGroups (localeCompare : string -> string -> Z)
    (data : option GroupedAssets) : list AdGroup :=
  match data with
  | Some d => sort (compareGroups localeCompare) (groups d)
  | None => []
  end.

Definition sortGroups (localeCompare : string -> string -> Z)
    (gs : list AdGroup) : list AdGroup :=
  sort (compareGroups localeCompare) gs.

(** A collation to run examples with: code units compared left to right. *)
Definition codeunit_compare (a b : string) : Z :=
  match String.compare a b with
  | Lt => -1
  | Eq => 0
  | Gt => 1
  end.

End Sorter.

(** ** Table projection and move drop-down ([AssetTable]) *)

Module Table.

Record AssetRow := {
  row_asset : ProcessedAsset;
  row_group : AdGroup;
  assetIndex : nat
}.

(** [groups.flatMap(group => group.assets.map((asset, assetIndex) => ...))]. *)
Definition rows (groups : list AdGroup) : list AssetRow :=
  flat_map (fun group =>
    imap (fun assetIndex asset =>
      {| row_asset := asset; row_group := group; assetIndex := assetIndex |})
      (assets group)) groups.

(** What the body of [rows.map] computes for one [<tr>]. *)
Record RenderedRow := {
  rendered : AssetRow;
  isFirstInGroup : bool;
  assetsInGroup : nat;
  moveOptions : list string
}.

(** The [value]s of the [<option>]s of the move [<select>], in order. *)
Definition move_options (groups : list AdGroup) (row : AssetRow) : list string :=
  "" :: map group_id
          (List.filter
             (fun g => negb (String.eqb (group_id g) (group_id (row_group row))))
             groups)
     ++ ["new"].

(** The [rows.map] loop; [seenGroups] is the [Set] it mutates. *)
Fixpoint render_rows (groups : list AdGroup) (seenGroups : gset string)
    (rs : list AssetRow) : list RenderedRow :=
  match rs with
  | [] => []
  | row :: rest =>
      let isFirst := negb (bool_decide (group_id (row_group row) ∈ seenGroups)) in
      let seenGroups := {[ group_id (row_group row) ]} ∪ seenGroups in
      {| rendered := row;
         isFirstInGroup := isFirst;
         assetsInGroup := length (assets (row_group row));
         moveOptions := move_options groups row |}
        :: render_rows groups seenGroups rest
  end.

Definition AssetTable (groups : list AdGroup) : list RenderedRow :=
  render_rows groups ∅ (rows groups).

(** [handleMoveAsset]: forwards to [onRegroupAsset] when the prop is set;
    the result is the call made, if any. *)
Definition handleMoveAsset (onRegroupAsset : bool)
    (assetId : string) (targetGroupId : option string)
    : option (string * option string) :=
  if onRegroupAsset then Some (assetId, targetGroupId) else None.

(** The [onChange] handler of the move [<select>]. *)
Definition move_onChange (onRegroupAsset : bool) (row : AssetRow) (value : string)
    : option (string * option string) :=
  if String.eqb value "new" then
    handleMoveAsset onRegroupAsset (asset_id (asset (row_asset row))) None
  else if JS.truthy value then
    handleMoveAsset onRegroupAsset (asset_id (asset (row_asset row))) (Some value)
  else None.

(** The projection in the words of the specification: one row per
    (group, asset) pair, groups in the given order and assets in their
    group's order, the flag set on the first row of each group, the span
    equal to the group's asset count. *)
Definition projection_spec (groups : list AdGroup) : list (AdGroup * ProcessedAsset * bool * nat) :=
  flat_map (fun g =>
    imap (fun i a => (g, a, Nat.eqb i 0, length (assets g))) (assets g)) groups.

Definition row_view (r : RenderedRow) : AdGroup * ProcessedAsset * bool * nat :=
  (row_group (rendered r), row_asset (rendered r), isFirstInGroup r, assetsInGroup r).

End Table.

(** ** Mutation protocol ([api/client.ts] and the handlers of [ReviewPage]) *)

Module Client.

Inductive FieldValue :=
| VStr (s : string)
| VBool (b : bool).

(** A [Partial<AdGroup>] object literal: field names with their values. *)
Definition Updates := list (string * FieldValue).

Record AssetUpdates := {
  upd_headline : option string;
  upd_description : option string
}.

(** The requests the page sends, one constructor per endpoint. *)
Inductive Request :=
| GetGroups
| UpdateGroup (groupId : string) (updates : Updates)
| UpdateAsset (groupId assetId : string) (updates : AssetUpdates)
| Renumber (start_number : Z)
| RegroupAsset (assetId : string) (targetGroupId : option string).

(** The message of a thrown [Error]. *)
Definition Error := string.

(** The server behind [/api]: every call moves its state and either
    rejects or resolves. [renumber] is the raw [fetch]: it resolves to
    [response.ok]. *)
Record Backend (St : Type) := {
  getGroups : St -> (Error + GroupedAssets) * St;
  updateGroup : string -> Updates -> St -> (Error + AdGroup) * St;
  updateAsset : string -> string -> AssetUpdates -> St -> (Error + ProcessedAsset) * St;
  renumber : Z -> St -> (Error + bool) * St;
  regroupAsset : string -> option string -> St -> (Error + GroupedAssets) * St
}.

Arguments getGroups {St}.
Arguments updateGroup {St}.
Arguments updateAsset {St}.
Arguments renumber {St}.
Arguments regroupAsset {St}.

(** The page's state ([data]), what it wrote with [console.error], the
    server's state and the requests sent so far. *)
Record World (St : Type) := {
  store : St;
  sent : list Request;
  data : option GroupedAssets;
  console : list (string * Error)
}.

Arguments store {St}.
Arguments sent {St}.
Arguments data {St}.
Arguments console {St}.

Definition thrown {A} (r : Error + A) : option Error :=
  match r with
  | inr _ => None
  | inl e => Some e
  end.

Section Handlers.
Context {St : Type} (api : Backend St).

(** An [async] function body: it runs on a world and throws or returns. *)
Definition Act (A : Type) := World St -> (Error + A) * World St.

Definition ret {A} (a : A) : Act A := fun w => (inr a, w).

Definition throw {A} (e : Error) : Act A := fun w => (inl e, w).

Definition bind {A B} (m : Act A) (k : A -> Act B) : Act B :=
  fun w =>
    match m w with
    | (inr a, w') => k a w'
    | (inl e, w') => (inl e, w')
    end.

Definition try_catch {A} (body : Act A) (handler : Error -> Act A) : Act A :=
  fun w =>
    match body w with
    | (inr a, w') => (inr a, w')
    | (inl e, w') => handler e w'
    end.

Notation "x <- m ;; k" := (bind m (fun x => k))
  (at level 100, m at next level, right associativity).
Notation "m ;;; k" := (bind m (fun _ => k))
  (at level 100, right associativity).

(** [await] of one request: it is logged, then answered by the server. *)
Definition call {A} (r : Request) (op : St -> (Error + A) * St) : Act A :=
  fun w =>
    let '(res, s') := op (store w) in
    (res, {| store := s'; sent := sent w ++ [r]; data := data w; console := console w |}).

Definition api_getGroups : Act GroupedAssets := call GetGroups (getGroups api).

Definition api_updateGroup (groupId : string) (updates : Updates) : Act AdGroup :=
  call (UpdateGroup groupId updates) (updateGroup api groupId updates).

Definition api_updateAsset (groupId assetId : string) (updates : AssetUpdates)
    : Act ProcessedAsset :=
  call (UpdateAsset groupId assetId updates) (updateAsset api groupId assetId updates).

Definition api_regroupAsset (assetId : string) (targetGroupId : option string)
    : Act GroupedAssets :=
  call (RegroupAsset assetId targetGroupId) (regroupAsset api assetId targetGroupId).

Definition fetch_renumber (startNumber : Z) : Act bool :=
  call (Renumber startNumber) (renumber api startNumber).

Definition setData (newData : GroupedAssets) : Act unit :=
  fun w => (inr tt, {| store := store w; sent := sent w;
                       data := Some newData; console := console w |}).

Definition console_error (label : string) (err : Error) : Act unit :=
  fun w => (inr tt, {| store := store w; sent := sent w; data := data w;
                       console := console w ++ [(label, err)] |}).

(** [for (const x of l) { await body(x) }]. *)
Fixpoint for_of {A} (l : list A) (body : A -> Act unit) : Act unit :=
  match l with
  | [] => ret tt
  | x :: rest => body x ;;; for_of rest body
  end.

Definition handleGroupUpdate (groupId : string) (updates : Updates) : Act unit :=
  try_catch
    (_ <- api_updateGroup groupId updates ;;
     newData <- api_getGroups ;;
     setData newData)
    (console_error "Failed to update group:").

Definition handleAssetUpdate (groupId assetId : string) (updates : AssetUpdates)
    : Act unit :=
  try_catch
    (_ <- api_updateAsset groupId assetId updates ;;
     newData <- api_getGroups ;;
     setData newData)
    (console_error "Failed to update asset:").

Definition handleBulkApply (field : string) (value : FieldValue) : Act unit :=
  fun w =>
    match data w with
    | None => ret tt w
    | Some d =>
        try_catch
          (for_of (groups d)
             (fun group => _ <- api_updateGroup (group_id group) [(field, value)] ;; ret tt) ;;;
           newData <- api_getGroups ;;
           setData newData)
          (console_error "Bulk apply failed:") w
    end.

Definition handleRenumber (startNumber : Z) : Act unit :=
  try_catch
    (ok <- fetch_renumber startNumber ;;
     (if ok then ret tt else throw "Renumber failed") ;;;
     newData <- api_getGroups ;;
     setData newData)
    (console_error "Renumber failed:").

Definition handleRegroupAsset (assetId : string) (targetGroupId : option string)
    : Act unit :=
  try_catch
    (newData <- api_regroupAsset assetId targetGroupId ;;
     setData newData)
    (console_error "Failed to regroup asset:").

(** The five mutation intents and the handler that serves each. *)
Inductive Intent :=
| UpdateGroupFields (groupId : string) (updates : Updates)
| UpdateAssetFields (groupId assetId : string) (updates : AssetUpdates)
| RegroupAssetTo (assetId : string) (targetGroupId : option string)
| RenumberGroups (startNumber : Z)
| BulkApplyField (field : string) (value : FieldValue).

Definition handle (i : Intent) : Act unit :=
  match i with
  | UpdateGroupFields g u => handleGroupUpdate g u
  | UpdateAssetFields g a u => handleAssetUpdate g a u
  | RegroupAssetTo a t => handleRegroupAsset a t
  | RenumberGroups n => handleRenumber n
  | BulkApplyField f v => handleBulkApply f v
  end.

(** The server state after it has answered [r]. *)
Definition after (r : Request) (s : St) : St :=
  match r with
  | GetGroups => snd (getGroups api s)
  | UpdateGroup g u => snd (updateGroup api g u s)
  | UpdateAsset g a u => snd (updateAsset api g a u s)
  | Renumber n => snd (renumber api n s)
  | RegroupAsset a t => snd (regroupAsset api a t s)
  end.

Definition replay (rs : list Request) (s : St) : St :=
  fold_left (fun s r => after r s) rs s.

(** The error the page sees when it sends [r] in state [s], if any: the
    rejection of the call, or for the raw renumber [fetch] a response
    that is not [ok]. *)
Definition rejection (r : Request) (s : St) : option Error :=
  match r with
  | GetGroups => thrown (fst (getGroups api s))
  | UpdateGroup g u => thrown (fst (updateGroup api g u s))
  | UpdateAsset g a u => thrown (fst (updateAsset api g a u s))
  | Renumber n =>
      match fst (renumber api n s) with
      | inl e => Some e
      | inr false => Some "Renumber failed"
      | inr true => None
      end
  | RegroupAsset a t => thrown (fst (regroupAsset api a t s))
  end.

(** Sending [rs] one after the other: the position and error of the
    first request that fails, [None] when all succeed. *)
Fixpoint first_rejected (rs : list Request) (s : St) : option (nat * Error) :=
  match rs with
  | [] => None
  | r :: rest =>
      match rejection r s with
      | Some e => Some (O, e)
      | None =>
          match first_rejected rest (after r s) with
          | Some (k, e) => Some (S k, e)
          | None => None
          end
      end
  end.

End Handlers.

(** The mutation requests an intent stands for, given the page's [data]. *)
Definition mutation_requests (i : Intent) (d : option GroupedAssets) : list Request :=
  match i with
  | UpdateGroupFields g u => [UpdateGroup g u]
  | UpdateAssetFields g a u => [UpdateAsset g a u]
  | RegroupAssetTo a t => [RegroupAsset a t]
  | RenumberGroups n => [Renumber n]
  | BulkApplyField f v =>
      match d with
      | Some d => map (fun g => UpdateGroup (group_id g) [(f, v)]) (groups d)
      | None => []
      end
  end.

End Client.

(** ** The start-number field of [BulkApplyToolbar] *)

Module Toolbar.

Definition is_space (c : ascii) : bool :=
  let n := Z.of_N (N_of_ascii c) in
  (n =? 32) || ((9 <=? n) && (n <=? 13)).

Fixpoint skip_spaces (s : string) : string :=
  match s with
  | EmptyString => EmptyString
  | String c r => if is_space c then skip_spaces r else s
  end.

(** [parseInt(s)] on decimal input: leading white space, an optional
    sign, then the leading digits; [None] is [NaN]. The value of a
    number input is empty or a decimal literal, so the hexadecimal
    prefix that [parseInt] also accepts does not occur. The digits are
    read as an exact integer, as [parseInt] does below 2^53. *)
Definition parseInt (s : string) : option Z :=
  let body (neg : bool) (t : string) :=
    let ds := JS.leading_digits t in
    if JS.truthy ds
    then Some (if neg then - JS.parse_digits 0 ds else JS.parse_digits 0 ds)
    else None in
  match skip_spaces s with
  | String "-"%char r => body true r
  | String "+"%char r => body false r
  | t => body false t
  end.

(** [x || 1] for a number: [NaN] and zero are falsy. *)
Definition or_one (x : option Z) : Z :=
  match x with
  | Some n => if n =? 0 then 1 else n
  | None => 1
  end.

(** [currentStartNumber={sortedGroups[0]?.ad_number || 1}]. *)
Definition currentStartNumber (sortedGroups : list AdGroup) : Z :=
  or_one (ad_number <$> head sortedGroups).

(** [onChange={e => setStartNumber(parseInt(e.target.value) || 1)}]:
    the new value of the [startNumber] state. *)
Definition onChange_startNumber (value : string) : Z :=
  or_one (parseInt value).

(** [onClick={() => { onRenumber(startNumber); }}] with
    [onRenumber={handleRenumber}]. *)
Definition click_renumber {St} (api : Client.Backend St) (startNumber : Z)
    : Client.Act unit :=
  Client.handleRenumber api startNumber.

(** Typing [value] into the field, then pressing Renumber. *)
Definition type_then_renumber {St} (api : Client.Backend St) (value : string)
    : Client.Act unit :=
  click_renumber api (onChange_startNumber value).

End Toolbar.

(** ** Notions the properties are stated with *)

Module Props.

(** [s] has no two consecutive underscores. *)
Definition no_double_underscore (s : string) : Prop :=
  forall p q : string, s <> p +:+ "__" +:+ q.

(** The same, decided by one pass; [prev] tells whether the character
    before [s] was an underscore. *)
Fixpoint double_free (prev : bool) (s : string) : bool :=
  match s with
  | EmptyString => true
  | String c r =>
      if JS.is_underscore c then negb prev && double_free true r
      else double_free false r
  end.

(** One-pass description of the replacement: an underscore is dropped
    exactly when the character before it was an underscore. *)
Fixpoint squeeze (prev : bool) (s : string) : string :=
  match s with
  | EmptyString => EmptyString
  | String c r =>
      if JS.is_underscore c
      then (if prev then squeeze true r else String c (squeeze true r))
      else String c (squeeze false r)
  end.

(** The tokens of a name: its maximal non-empty underscore-free segments,
    left to right. [cur] is the segment read so far. *)
Fixpoint tokens_from (cur : string) (s : string) : list string :=
  match s with
  | EmptyString => if JS.truthy cur then [cur] else []
  | String c r =>
      if JS.is_underscore c
      then (if JS.truthy cur then cur :: tokens_from "" r else tokens_from "" r)
      else tokens_from (cur +:+ String c "") r
  end.

Definition tokens (s : string) : list string := tokens_from "" s.

Fixpoint all_chars (P : ascii -> bool) (s : string) : bool :=
  match s with
  | EmptyString => true
  | String c r => P c && all_chars P r
  end.

(** The characters [String(n)] is made of. *)
Definition is_number_char (c : ascii) : bool :=
  JS.is_digit c || Ascii.eqb c "-"%char.

Definition no_underscore (s : string) : bool :=
  all_chars (fun c => negb (JS.is_underscore c)) s.

Definition no_dot (s : string) : bool :=
  all_chars (fun c => negb (Ascii.eqb c "."%char)) s.

Definition starts_with_underscore (s : string) : bool :=
  match s with
  | String c _ => JS.is_underscore c
  | EmptyString => false
  end.

Fixpoint ends_with_underscore (s : string) : bool :=
  match s with
  | EmptyString => false
  | String c EmptyString => JS.is_underscore c
  | String _ r => ends_with_underscore r
  end.

(** A part that joins without creating a run of underscores. *)
Definition clean (s : string) : bool :=
  JS.truthy s && double_free false s
    && negb (starts_with_underscore s) && negb (ends_with_underscore s).

Definition nonempty (s : string) : list string :=
  if JS.truthy s then [s] else [].

(** The parts of a group's name in the words of the specification: the
    padded number, then each field in the fixed order, optional ones only
    when non-empty, ["Offer"] only when the flag is set. *)
Definition spec_parts (g : AdGroup) : list string :=
  Naming.adNum g
    :: nonempty (campaign g) ++ nonempty (product g)
    ++ [format_token g]
    ++ nonempty (angle g) ++ nonempty (hook g) ++ nonempty (creator g)
    ++ (if offer g then ["Offer"] else [])
    ++ match date g with Some d => nonempty d | None => [] end.

(** The three decimal digits of a number below 1000. *)
Definition digit_char (d : Z) : ascii := ascii_of_N (Z.to_N (48 + d)).

Definition three_digits (n : Z) : string :=
  String (digit_char (n / 100))
    (String (digit_char (n / 10 mod 10))
       (String (digit_char (n mod 10)) EmptyString)).

(** Tokens contributed by the fields before and after the offer flag. *)
Definition tokens_before_offer (g : AdGroup) : list string :=
  tokens (Naming.adNum g) ++ tokens (campaign g) ++ tokens (product g)
    ++ tokens (format_token g) ++ tokens (angle g) ++ tokens (hook g)
    ++ tokens (creator g).

Definition tokens_after_offer (g : AdGroup) : list string :=
  match date g with Some d => tokens d | None => [] end.

(** No text field of the group has ["Offer"] among its tokens. *)
Definition fields_without_offer (g : AdGroup) : Prop :=
  ~ In "Offer" (tokens (campaign g) ++ tokens (product g)
      ++ tokens (format_token g) ++ tokens (angle g) ++ tokens (hook g)
      ++ tokens (creator g) ++ tokens_after_offer g).

(** Whether the last character read is an underscore, once [a] has been
    read from a position whose previous character is described by [b]. *)
Definition last_underscore (b : bool) (a : string) : bool :=
  match a with
  | EmptyString => b
  | _ => ends_with_underscore a
  end.

(** The [seenGroups] set once the loop has gone through [rs]. *)
Definition seen_after (seenGroups : gset string) (rs : list Table.AssetRow)
    : gset string :=
  fold_left (fun s r => {[ group_id (Table.row_group r) ]} ∪ s) rs seenGroups.

Definition group_rows (g : AdGroup) (f : nat -> nat) (l : list ProcessedAsset)
    : list Table.AssetRow :=
  imap (fun i a => {| Table.row_asset := a; Table.row_group := g;
                      Table.assetIndex := f i |}) l.

Definition update_request (f : string) (v : Client.FieldValue) (g : AdGroup)
    : Client.Request :=
  Client.UpdateGroup (group_id g) [(f, v)].

(** [a] may stand before [b] under the comparator. *)
Definition precedes {A} (cmp : A -> A -> Z) (a b : A) : Prop := cmp a b <= 0.

(** The comparator is consistent on the elements of [l]. *)
Definition consistent_on {A} (cmp : A -> A -> Z) (l : list A) : Prop :=
  (forall a b, In a l -> In b l -> precedes cmp a b \/ precedes cmp b a)
  /\ (forall a b c, In a l -> In b l -> In c l ->
        precedes cmp a b -> precedes cmp b c -> precedes cmp a c).

(** The label each handler passes to [console.error]. *)
Definition console_label (i : Client.Intent) : string :=
  match i with
  | Client.UpdateGroupFields _ _ => "Failed to update group:"
  | Client.UpdateAssetFields _ _ _ => "Failed to update asset:"
  | Client.RegroupAssetTo _ _ => "Failed to regroup asset:"
  | Client.RenumberGroups _ => "Renumber failed:"
  | Client.BulkApplyField _ _ => "Bulk apply failed:"
  end.

(** The mandatory re-read. A handler with no data loaded (the early
    return of the bulk apply) does nothing. Otherwise the mutation
    requests of the intent are sent in order. If one of them fails, it is
    the last request sent, the page's data stay as they were and the error
    is logged under the handler's label. If all succeed, a separate
    [GetGroups] request follows them; the page's data become the snapshot
    it answers, or stay as they were, with the error logged, when it
    fails. *)
Definition refreshed_by_reread {St} (api : Client.Backend St)
    (i : Client.Intent) (w w' : Client.World St) : Prop :=
  match i, Client.data w with
  | Client.BulkApplyField _ _, None => w' = w
  | _, _ =>
      let muts := Client.mutation_requests i (Client.data w) in
      match Client.first_rejected api muts (Client.store w) with
      | Some (k, e) =>
          Client.sent w' = Client.sent w ++ take (S k) muts
          /\ Client.store w' = Client.replay api (take (S k) muts) (Client.store w)
          /\ Client.data w' = Client.data w
          /\ Client.console w' = Client.console w ++ [(console_label i, e)]
      | None =>
          Client.sent w' = Client.sent w ++ muts ++ [Client.GetGroups]
          /\ match Client.getGroups api (Client.replay api muts (Client.store w)) with
             | (inr d, s') =>
                 Client.data w' = Some d /\ Client.store w' = s'
                 /\ Client.console w' = Client.console w
             | (inl e, s') =>
                 Client.data w' = Client.data w /\ Client.store w' = s'
                 /\ Client.console w' = Client.console w ++ [(console_label i, e)]
             end
      end
  end.

(** The page's data after a regroup are the snapshot carried by the
    response to the regroup request itself, the only request sent. *)
Definition refreshed_by_response {St} (api : Client.Backend St)
    (a : string) (t : option string) (w w' : Client.World St) : Prop :=
  Client.sent w' = Client.sent w ++ [Client.RegroupAsset a t]
  /\ match Client.regroupAsset api a t (Client.store w) with
     | (inr d, s') =>
         Client.data w' = Some d /\ Client.store w' = s'
         /\ Client.console w' = Client.console w
     | (inl e, s') =>
         Client.data w' = Client.data w /\ Client.store w' = s'
         /\ Client.console w' = Client.console w ++ [("Failed to regroup asset:", e)]
     end.

End Props.

Import Props.

(** ** Groups, assets and a store to run the code on *)

Definition double_underscore_group : AdGroup :=
  {| group_id := "g3"; ad_number := 3; campaign := "Q4__Launch"; product := "";
     format_token := "VID"; angle := ""; hook := ""; creator := "";
     offer := false; date := None; assets := [] |}.

Definition offer_campaign_group : AdGroup :=
  {| group_id := "g1"; ad_number := 1; campaign := "Offer"; product := "";
     format_token := "IMG"; angle := ""; hook := ""; creator := "";
     offer := false; date := None; assets := [] |}.

Definition named_asset (fname : string) : ProcessedAsset :=
  {| asset := {| asset_id := "a-" +:+ fname; name := fname; asset_type := VID |};
     placement := "feed" |}.

Definition group_of (gid : string) (n : Z) (fnames : list string) : AdGroup :=
  {| group_id := gid; ad_number := n; campaign := ""; product := "";
     format_token := "VID"; angle := ""; hook := ""; creator := "";
     offer := false; date := None; assets := map named_asset fnames |}.

Definition g_12a : AdGroup := group_of "g1" 1 ["12_a.mp4"].
Definition g_9b : AdGroup := group_of "g2" 2 ["9_b.mp4"].
Definition g_alpha : AdGroup := group_of "g3" 3 ["b.mp4"].
Definition g_noassets : AdGroup := group_of "g4" 4 [].

Definition two_groups : list AdGroup :=
  [group_of "g1" 1 ["9_a.mp4"; "9_b.mp4"]; group_of "g2" 2 ["12_a.mp4"]].

Definition g_one : AdGroup := group_of "g1" 1 ["9_a.mp4"; "9_b.mp4"].
Definition g_two : AdGroup := group_of "g2" 2 ["12_a.mp4"].

(** A small server to run the handlers against: it holds a snapshot and
    the ids of the groups it has updated; it knows exactly the groups of
    its snapshot. *)
Record ToyStore := {
  snapshot : GroupedAssets;
  applied : list string
}.

Definition with_assets (g : AdGroup) (l : list ProcessedAsset) : AdGroup :=
  {| group_id := group_id g; ad_number := ad_number g; campaign := campaign g;
     product := product g; format_token := format_token g; angle := angle g;
     hook := hook g; creator := creator g; offer := offer g; date := date g;
     assets := l |}.

Definition has_id (a : string) (pa : ProcessedAsset) : bool :=
  String.eqb (asset_id (asset pa)) a.

(** The store's regroup: the asset leaves its group, a group left empty
    is deleted, and the asset joins the target or a new group of its own. *)
Definition toy_regroup (a : string) (t : option string) (d : GroupedAssets)
    : option GroupedAssets :=
  match find (has_id a) (flat_map assets (groups d)) with
  | None => None
  | Some pa =>
      let without :=
        List.filter (fun g => negb (Nat.eqb (length (assets g)) 0))
          (map (fun g => with_assets g
                  (List.filter (fun x => negb (has_id a x)) (assets g)))
             (groups d)) in
      match t with
      | None =>
          Some {| groups := without ++
                    [ {| group_id := "new-" +:+ a;
                         ad_number := Z.of_nat (length without) + 1;
                         campaign := ""; product := ""; format_token := "IMG";
                         angle := ""; hook := ""; creator := ""; offer := false;
                         date := None; assets := [pa] |} ];
                  ungrouped := ungrouped d |}
      | Some tid =>
          Some {| groups := map (fun g =>
                              if String.eqb (group_id g) tid
                              then with_assets g (assets g ++ [pa]) else g) without;
                  ungrouped := ungrouped d |}
      end
  end.

Definition toy_api : Client.Backend ToyStore :=
  {| Client.getGroups := fun s => (inr (snapshot s), s);
     Client.updateGroup := fun gid _ s =>
       match find (fun g => String.eqb (group_id g) gid) (groups (snapshot s)) with
       | Some g => (inr g, {| snapshot := snapshot s; applied := applied s ++ [gid] |})
       | None => (inl "Group not found", s)
       end;
     Client.updateAsset := fun _ _ _ s => (inl "Asset not found", s);
     Client.renumber := fun _ s => (inr true, s);
     Client.regroupAsset := fun a t s =>
       match toy_regroup a t (snapshot s) with
       | Some d => (inr d, {| snapshot := d; applied := applied s |})
       | None => (inl "Asset not found", s)
       end |}.

Definition snapshot_of (gs : list AdGroup) : GroupedAssets :=
  {| groups := gs; ungrouped := [] |}.

Definition toy_world (server page : list AdGroup) : Client.World ToyStore :=
  {| Client.store := {| snapshot := snapshot_of server; applied := [] |};
     Client.sent := [];
     Client.data := Some (snapshot_of page);
     Client.console := [] |}.

Definition bulk_campaign (w : Client.World ToyStore)
    : (Client.Error + unit) * Client.World ToyStore :=
  Client.handleBulkApply toy_api "campaign" (Client.VStr "Q4") w.

(** ** More of [ReviewPage]: the asset count *)

Module Review.

(** [sortedGroups.reduce((sum, g) => sum + g.assets.length, 0)]. *)
Definition totalAssets (sortedGroups : list AdGroup) : nat :=
  fold_left (fun sum g => (sum + length (assets g))%nat) sortedGroups 0%nat.

End Review.

(** ** [SetupPage]: submitting the folder path *)

Module Setup.

(** White space and line terminators among the first 256 code units. *)
Definition is_white (c : ascii) : bool :=
  let n := Z.of_N (N_of_ascii c) in
  (n =? 32) || ((9 <=? n) && (n <=? 13)) || (n =? 160).

Fixpoint trimStart (s : string) : string :=
  match s with
  | EmptyString => EmptyString
  | String c r => if is_white c then trimStart r else s
  end.

Fixpoint trimEnd (s : string) : string :=
  match s with
  | EmptyString => EmptyString
  | String c r =>
      match trimEnd r with
      | EmptyString => if is_white c then EmptyString else String c EmptyString
      | t => String c t
      end
  end.

(** [s.trim()]. *)
Definition trim (s : string) : string := trimEnd (trimStart s).

(** The component's state. *)
Record State := {
  loading : bool;
  error : option string;
  folderPath : string
}.

Definition setLoading (b : bool) (st : State) : State :=
  {| loading := b; error := error st; folderPath := folderPath st |}.

Definition setError (e : option string) (st : State) : State :=
  {| loading := loading st; error := e; folderPath := folderPath st |}.

(** The server, the [folder_path]s sent to [/api/analyze], the component
    and the routes navigated to. *)
Record World (St : Type) := {
  store : St;
  analyzed : list string;
  page : State;
  navigated : list string
}.

Arguments store {St}.
Arguments analyzed {St}.
Arguments page {St}.
Arguments navigated {St}.

(** [handleSubmit], run to its end. A rejection of [api.analyze] carries
    an [Error], whose message is shown. *)
Definition handleSubmit {St : Type}
    (analyze : string -> St -> (Client.Error + GroupedAssets) * St)
    (w : World St) : World St :=
  if negb (JS.truthy (trim (folderPath (page w)))) then
    {| store := store w; analyzed := analyzed w;
       page := setError (Some "Please enter a folder path or Google Drive link") (page w);
       navigated := navigated w |}
  else
    let st := setError None (setLoading true (page w)) in
    let request := trim (folderPath (page w)) in
    match analyze request (store w) with
    | (inr _, s') =>
        {| store := s'; analyzed := analyzed w ++ [request];
           page := setLoading false st;
           navigated := navigated w ++ ["/review"] |}
    | (inl err, s') =>
        {| store := s'; analyzed := analyzed w ++ [request];
           page := setLoading false (setError (Some err) st);
           navigated := navigated w |}
    end.

(** [disabled={loading || !folderPath.trim()}] of the submit button. *)
Definition submit_disabled (st : State) : bool :=
  loading st || negb (JS.truthy (trim (folderPath st))).

End Setup.

(** ** Notions for the further properties *)

Module MoreProps.

(** The group's first file name starts with a digit. *)
Definition numbered (g : AdGroup) : bool :=
  match Sorter.extractNumber (Sorter.getFirstFilename g) with
  | Some _ => true
  | None => false
  end.

(** The leading number of the group's first file name. *)
Definition first_number (g : AdGroup) : Z :=
  match Sorter.extractNumber (Sorter.getFirstFilename g) with
  | Some n => n
  | None => 0
  end.

(** The span a row contributes: its group's asset count on the first row
    of the group, nothing on the others. *)
Definition row_span (r : Table.RenderedRow) : nat :=
  if Table.isFirstInGroup r then Table.assetsInGroup r else 0%nat.

Definition starts_white (s : string) : bool :=
  match s with
  | String c _ => Setup.is_white c
  | EmptyString => false
  end.

Fixpoint ends_white (s : string) : bool :=
  match s with
  | EmptyString => false
  | String c EmptyString => Setup.is_white c
  | String _ r => ends_white r
  end.

Definition setup_world (path : string) : Setup.World ToyStore :=
  {| Setup.store := {| snapshot := snapshot_of []; applied := [] |};
     Setup.analyzed := [];
     Setup.page := {| Setup.loading := false; Setup.error := None;
                      Setup.folderPath := path |};
     Setup.navigated := [] |}.

(** An analyzer that knows one folder. *)
Definition toy_analyze (path : string) (s : ToyStore)
    : (Client.Error + GroupedAssets) * ToyStore :=
  if String.eqb path "/assets"
  then (inr (snapshot_of [g_one; g_two]),
        {| snapshot := snapshot_of [g_one; g_two]; applied := applied s |})
  else (inl "Folder not found", s).

End MoreProps.

Import MoreProps.

(** * Properties *)

(** ** The replacement of underscore runs *)

Lemma is_underscore_eq c : JS.is_underscore c = true -> c = "_"%char.
Proof. unfold JS.is_underscore. apply Ascii.eqb_eq. Qed.

Lemma replace_runs_cons2 c1 c2 r :
  JS.replace_runs (String c1 (String c2 r)) =
  if JS.is_underscore c1 && JS.is_underscore c2
  then String "_"%char (JS.in_run r)
  else String c1 (JS.replace_runs (String c2 r)).
Proof. reflexivity. Qed.

Lemma in_run_cons c r :
  JS.in_run (String c r) =
  if JS.is_underscore c then JS.in_run r else String c (JS.replace_runs r).
Proof. reflexivity. Qed.

Lemma squeeze_cons b c r :
  squeeze b (String c r) =
  if JS.is_underscore c
  then (if b then squeeze true r else String c (squeeze true r))
  else String c (squeeze false r).
Proof. reflexivity. Qed.

Lemma replace_runs_squeeze s :
  JS.replace_runs s = squeeze false s /\ JS.in_run s = squeeze true s.
Proof.
  induction s as [|c1 t [IH1 IH2]]; [split; reflexivity|].
  split.
  - destruct t as [|c2 r].
    + simpl. destruct (JS.is_underscore c1); reflexivity.
    + rewrite replace_runs_cons2, (squeeze_cons false c1).
      rewrite in_run_cons, squeeze_cons in IH2.
      destruct (JS.is_underscore c1) eqn:E1; cbn [andb].
      * destruct (JS.is_underscore c2) eqn:E2.
        -- apply is_underscore_eq in E1. subst c1. f_equal.
           rewrite IH2, squeeze_cons, E2. reflexivity.
        -- f_equal. rewrite IH1, !squeeze_cons, E2. reflexivity.
      * f_equal. exact IH1.
  - rewrite in_run_cons, squeeze_cons.
    destruct (JS.is_underscore c1); [exact IH2|].
    f_equal. exact IH1.
Qed.

Lemma replace_runs_eq s : JS.replace_runs s = squeeze false s.
Proof. apply replace_runs_squeeze. Qed.

Lemma squeeze_double_free b s : double_free b (squeeze b s) = true.
Proof.
  revert b. induction s as [|c r IH]; intros b; [reflexivity|].
  cbn [squeeze]. destruct (JS.is_underscore c) eqn:E.
  - destruct b; [apply IH|]. cbn [double_free]. rewrite E. apply IH.
  - cbn [double_free]. rewrite E. apply IH.
Qed.

Lemma squeeze_id b s : double_free b s = true -> squeeze b s = s.
Proof.
  revert b. induction s as [|c r IH]; intros b H; [reflexivity|].
  cbn [squeeze double_free] in *. destruct (JS.is_underscore c).
  - destruct b; [discriminate|]. f_equal. apply IH. exact H.
  - f_equal. apply IH. exact H.
Qed.

Lemma double_free_app_dbl b p q : double_free b (p +:+ "__" +:+ q) = false.
Proof.
  revert b. induction p as [|c r IH]; intros b.
  - cbn. destruct b; reflexivity.
  - change (String c r +:+ "__" +:+ q) with (String c (r +:+ "__" +:+ q)).
    cbn [double_free].
    destruct (JS.is_underscore c); rewrite IH; [apply andb_false_r|reflexivity].
Qed.

Lemma double_free_sound s : double_free false s = true -> no_double_underscore s.
Proof.
  intros H p q ->. rewrite double_free_app_dbl in H. discriminate.
Qed.

Lemma double_free_complete s b :
  double_free b s = false ->
  (b = true /\ starts_with_underscore s = true) \/ ~ no_double_underscore s.
Proof.
  revert b. induction s as [|c r IH]; intros b H; [discriminate|].
  cbn [double_free] in H. destruct (JS.is_underscore c) eqn:E.
  - destruct b; [left; split; [reflexivity|exact E]|].
    cbn [negb andb] in H. destruct (IH _ H) as [[_ Hs]|Hn].
    + right. intros Hno. destruct r as [|c2 r2]; [discriminate|].
      cbn in Hs. apply is_underscore_eq in E, Hs. subst.
      apply (Hno "" r2). reflexivity.
    + right. intros Hno. apply Hn. intros p q ->.
      apply (Hno (String c p) q). reflexivity.
  - destruct (IH _ H) as [[Hb _]|Hn]; [discriminate|].
    right. intros Hno. apply Hn. intros p q ->.
    apply (Hno (String c p) q). reflexivity.
Qed.

Lemma double_free_iff s : double_free false s = true <-> no_double_underscore s.
Proof.
  split; [apply double_free_sound|].
  intros Hno. destruct (double_free false s) eqn:E; [reflexivity|].
  destruct (double_free_complete _ _ E) as [[Hb _]|Hn]; [discriminate|].
  contradiction.
Qed.

(** ** Tokens *)

Lemma append_nil b : "" +:+ b = b.
Proof. reflexivity. Qed.

Lemma append_cons c r b : String c r +:+ b = String c (r +:+ b).
Proof. reflexivity. Qed.

Lemma append_nil_r a : a +:+ "" = a.
Proof. induction a as [|c r IH]; [reflexivity|]. rewrite append_cons, IH. reflexivity. Qed.

Lemma append_assoc a b c : (a +:+ b) +:+ c = a +:+ (b +:+ c).
Proof. induction a as [|x r IH]; [reflexivity|]. rewrite !append_cons, IH. reflexivity. Qed.

Lemma tokens_from_squeeze cur b s :
  (b = true -> cur = "") ->
  tokens_from cur (squeeze b s) = tokens_from cur s.
Proof.
  revert cur b. induction s as [|c r IH]; intros cur b Hb; [reflexivity|].
  rewrite squeeze_cons. cbn [tokens_from].
  destruct (JS.is_underscore c) eqn:E.
  - destruct b.
    + rewrite (Hb eq_refl). cbn [JS.truthy]. apply IH. reflexivity.
    + cbn [tokens_from]. rewrite E.
      destruct (JS.truthy cur); rewrite IH; reflexivity.
  - cbn [tokens_from]. rewrite E. apply IH. discriminate.
Qed.

Lemma tokens_replace_runs s : tokens (JS.replace_runs s) = tokens s.
Proof.
  rewrite replace_runs_eq. apply tokens_from_squeeze. discriminate.
Qed.

Lemma tokens_from_app_sep cur a b :
  tokens_from cur (a +:+ String "_" b) = tokens_from cur a ++ tokens b.
Proof.
  revert cur. induction a as [|c r IH]; intros cur.
  - rewrite append_nil. cbn. destruct (JS.truthy cur); reflexivity.
  - rewrite append_cons.
    cbn [tokens_from]. destruct (JS.is_underscore c).
    + destruct (JS.truthy cur); rewrite IH; reflexivity.
    + apply IH.
Qed.

Lemma tokens_join parts :
  tokens (JS.join "_" parts) = concat (map tokens parts).
Proof.
  induction parts as [|p [|q r] IH].
  - reflexivity.
  - cbn. rewrite app_nil_r. reflexivity.
  - change (JS.join "_" (p :: q :: r)) with (p +:+ String "_" (JS.join "_" (q :: r))).
    unfold tokens at 1. rewrite tokens_from_app_sep, IH. reflexivity.
Qed.

Lemma tokens_from_plain cur s :
  no_underscore s = true ->
  tokens_from cur s = if JS.truthy (cur +:+ s) then [cur +:+ s] else [].
Proof.
  revert cur. induction s as [|c r IH]; intros cur H.
  - cbn. rewrite append_nil_r. reflexivity.
  - cbn in H. apply andb_true_iff in H as [Hc Hr].
    cbn [tokens_from]. apply negb_true_iff in Hc. rewrite Hc.
    rewrite (IH _ Hr).
    rewrite append_assoc, append_cons, append_nil. reflexivity.
Qed.

Lemma tokens_plain s :
  no_underscore s = true -> JS.truthy s = true -> tokens s = [s].
Proof.
  intros H T. unfold tokens. rewrite (tokens_from_plain _ _ H).
  rewrite append_nil, T. reflexivity.
Qed.

Lemma tokens_nonempty s : concat (map tokens (nonempty s)) = tokens s.
Proof.
  unfold nonempty. destruct s; [reflexivity|]. cbn. apply app_nil_r.
Qed.

(** ** The padded number *)

Lemma all_chars_app P a b :
  all_chars P (a +:+ b) = all_chars P a && all_chars P b.
Proof.
  induction a as [|c r IH]; [reflexivity|].
  rewrite append_cons. cbn. rewrite IH. apply andb_assoc.
Qed.

Lemma all_chars_impl (P Q : ascii -> bool) s :
  (forall c, P c = true -> Q c = true) ->
  all_chars P s = true -> all_chars Q s = true.
Proof.
  intros HPQ. induction s as [|c r IH]; [reflexivity|].
  cbn. intros [Hc Hr]%andb_true_iff. rewrite (HPQ _ Hc), (IH Hr). reflexivity.
Qed.

Lemma string_of_uint_chars d :
  all_chars is_number_char (NilEmpty.string_of_uint d) = true.
Proof. induction d; cbn; try reflexivity; exact IHd. Qed.

Lemma String_of_chars n : all_chars is_number_char (JS.String_of n) = true.
Proof.
  unfold JS.String_of, NilZero.string_of_int.
  destruct (Z.to_int n) as [d|d]; cbn [all_chars];
    unfold NilZero.string_of_uint; destruct d; cbn [all_chars];
    try reflexivity; apply string_of_uint_chars.
Qed.

Lemma repeat_char_chars P c n :
  P c = true -> all_chars P (JS.repeat_char c n) = true.
Proof. intros H. induction n as [|k IH]; [reflexivity|]. cbn. rewrite H. exact IH. Qed.

Lemma adNum_chars g : all_chars is_number_char (Naming.adNum g) = true.
Proof.
  unfold Naming.adNum, JS.padStart. rewrite all_chars_app.
  rewrite repeat_char_chars by reflexivity. apply String_of_chars.
Qed.

Lemma number_char_not_underscore c :
  is_number_char c = true -> negb (JS.is_underscore c) = true.
Proof.
  unfold is_number_char, JS.is_underscore, JS.is_digit.
  destruct (Ascii.eqb c "_") eqn:E; [|reflexivity].
  apply Ascii.eqb_eq in E. subst c. cbn. discriminate.
Qed.

Lemma adNum_no_underscore g : no_underscore (Naming.adNum g) = true.
Proof.
  unfold no_underscore.
  apply (all_chars_impl is_number_char); [apply number_char_not_underscore|].
  apply adNum_chars.
Qed.

Lemma length_append a b :
  String.length (a +:+ b) = (String.length a + String.length b)%nat.
Proof.
  induction a as [|c r IH]; [reflexivity|].
  rewrite append_cons. cbn. rewrite IH. reflexivity.
Qed.

Lemma length_repeat_char c n : String.length (JS.repeat_char c n) = n.
Proof. induction n as [|k IH]; [reflexivity|]. cbn. rewrite IH. reflexivity. Qed.

Lemma adNum_length g : (3 <= String.length (Naming.adNum g))%nat.
Proof.
  unfold Naming.adNum, JS.padStart.
  rewrite length_append, length_repeat_char. lia.
Qed.

Lemma adNum_truthy g : JS.truthy (Naming.adNum g) = true.
Proof.
  pose proof (adNum_length g) as H.
  destruct (Naming.adNum g); [cbn in H; lia|reflexivity].
Qed.

Lemma adNum_three_digits g :
  0 <= ad_number g < 1000 -> Naming.adNum g = three_digits (ad_number g).
Proof.
  unfold Naming.adNum. generalize (ad_number g). intros n Hn.
  assert (Hall : forallb (fun k =>
            String.eqb (JS.padStart (JS.String_of (Z.of_nat k)) 3 "0")
                       (three_digits (Z.of_nat k))) (seq 0 1000) = true)
    by (vm_compute; reflexivity).
  rewrite forallb_forall in Hall.
  specialize (Hall (Z.to_nat n)).
  rewrite Z2Nat.id in Hall by lia.
  apply String.eqb_eq, Hall, in_seq. lia.
Qed.

Lemma adNum_not_Offer g : ~ In "Offer" (tokens (Naming.adNum g)).
Proof.
  rewrite (tokens_plain _ (adNum_no_underscore g) (adNum_truthy g)).
  intros [H|[]]. pose proof (adNum_chars g) as Hc. rewrite H in Hc.
  discriminate.
Qed.

(** ** The parts of a name *)

Lemma name_parts_spec g : Naming.name_parts g = spec_parts g.
Proof.
  unfold Naming.name_parts, spec_parts, Naming.push_if, Naming.push, nonempty.
  destruct (JS.truthy (campaign g)), (JS.truthy (product g)),
    (JS.truthy (angle g)), (JS.truthy (hook g)), (JS.truthy (creator g)),
    (offer g), (date g) as [d|];
    try destruct (JS.truthy d); reflexivity.
Qed.

Lemma squeeze_plain_prefix b a r :
  no_underscore a = true ->
  exists b', squeeze b (a +:+ r) = a +:+ squeeze b' r.
Proof.
  revert b. induction a as [|c t IH]; intros b H.
  - exists b. reflexivity.
  - cbn in H. apply andb_true_iff in H as [Hc Ht].
    apply negb_true_iff in Hc.
    rewrite append_cons, squeeze_cons, Hc.
    destruct (IH false Ht) as [b' Hb']. exists b'.
    rewrite Hb', append_cons. reflexivity.
Qed.

Lemma join_cons_cons sep p q r :
  JS.join sep (p :: q :: r) = p +:+ sep +:+ JS.join sep (q :: r).
Proof. reflexivity. Qed.

Lemma spec_parts_shape g : exists q r, spec_parts g = Naming.adNum g :: q :: r.
Proof.
  unfold spec_parts, nonempty.
  destruct (JS.truthy (campaign g)); [eexists _, _; reflexivity|].
  destruct (JS.truthy (product g)); eexists _, _; reflexivity.
Qed.

Lemma double_free_app b a r :
  double_free b (a +:+ r) = double_free b a && double_free (last_underscore b a) r.
Proof.
  revert b. induction a as [|c t IH]; intros b; [reflexivity|].
  rewrite append_cons. cbn [double_free].
  destruct (JS.is_underscore c) eqn:E; rewrite IH.
  - rewrite andb_assoc. f_equal. f_equal.
    destruct t; cbn; [symmetry; exact E|reflexivity].
  - f_equal. f_equal. destruct t; cbn; [symmetry; exact E|reflexivity].
Qed.

Lemma double_free_after_underscore s :
  starts_with_underscore s = false -> double_free true s = double_free false s.
Proof. destruct s as [|c r]; [reflexivity|]. cbn. intros ->. reflexivity. Qed.

Lemma clean_parts p :
  clean p = true ->
  JS.truthy p = true /\ double_free false p = true
  /\ starts_with_underscore p = false /\ ends_with_underscore p = false.
Proof.
  unfold clean. intros H.
  apply andb_true_iff in H as [H He]. apply andb_true_iff in H as [H Hs].
  apply andb_true_iff in H as [Ht Hd].
  apply negb_true_iff in He, Hs. auto.
Qed.

Lemma join_clean parts :
  Forall (fun p => clean p = true) parts ->
  double_free false (JS.join "_" parts) = true
  /\ (parts <> [] -> starts_with_underscore (JS.join "_" parts) = false).
Proof.
  induction 1 as [|p ps Hp Hps [IHd IHs]]; [split; [reflexivity|congruence]|].
  apply clean_parts in Hp as (Ht & Hd & Hs & He).
  destruct ps as [|q r]; [split; [exact Hd|intros _; exact Hs]|].
  rewrite join_cons_cons. split.
  - rewrite double_free_app, Hd.
    assert (last_underscore false p = false) as ->
      by (destruct p; [discriminate|exact He]).
    rewrite append_cons, append_nil. cbn [double_free andb].
    change (JS.is_underscore "_") with true. cbn [negb andb].
    rewrite double_free_after_underscore; [exact IHd|].
    apply IHs. discriminate.
  - intros _. destruct p; [discriminate|]. exact Hs.
Qed.

(** ** C1, C7, C8: [generateAdName] *)

(** C1, as stated, fails: a group whose campaign is [Q4__Launch] is not
    named by the plain underscore-join of its parts
    ([003_Q4__Launch_VID]) but by [003_Q4_Launch_VID]. *)
Lemma generateAdName_not_plain_join :
  Naming.generateAdName double_underscore_group
    <> JS.join "_" (spec_parts double_underscore_group)
  /\ Naming.generateAdName double_underscore_group = "003_Q4_Launch_VID"
  /\ JS.join "_" (spec_parts double_underscore_group) = "003_Q4__Launch_VID".
Proof. split; [|split]; [vm_compute; discriminate| |]; reflexivity. Qed.

Lemma generateAdName_tokens g :
  tokens (Naming.generateAdName g) = concat (map tokens (spec_parts g)).
Proof.
  unfold Naming.generateAdName. rewrite name_parts_spec.
  rewrite tokens_replace_runs. apply tokens_join.
Qed.

(** C1 (amended): for every group, [generateAdName] returns the
    underscore-join of the padded number, campaign, product, format token
    (always), angle, hook, creator, ["Offer"] and date - optional parts
    exactly when non-empty or true - in which every run of two or more
    underscores is then replaced by one. The result is the plain join
    exactly when that join has no two consecutive underscores, which is
    the case whenever every included part is non-empty, has no double
    underscore and neither starts nor ends with one. The scenario group is
    named [003_Q4Launch_VID_Hook1_Jess_Offer]. *)
Theorem generateAdName_join (g : AdGroup) :
  Naming.generateAdName g = JS.replace_runs (JS.join "_" (spec_parts g))
  /\ tokens (Naming.generateAdName g) = concat (map tokens (spec_parts g))
  /\ (Naming.generateAdName g = JS.join "_" (spec_parts g)
      <-> no_double_underscore (JS.join "_" (spec_parts g)))
  /\ (Forall (fun p => clean p = true) (spec_parts g) ->
      Naming.generateAdName g = JS.join "_" (spec_parts g))
  /\ Naming.generateAdName scenario_group = "003_Q4Launch_VID_Hook1_Jess_Offer".
Proof.
  unfold Naming.generateAdName. rewrite name_parts_spec.
  split; [reflexivity|]. split; [|split; [|split]].
  - rewrite <- (generateAdName_tokens g). unfold Naming.generateAdName.
    rewrite name_parts_spec. reflexivity.
  - rewrite replace_runs_eq. split.
    + intros <-. apply double_free_sound, squeeze_double_free.
    + intros H. apply squeeze_id, double_free_iff, H.
  - intros H. rewrite replace_runs_eq. apply squeeze_id, join_clean, H.
  - reflexivity.
Qed.

Lemma generateAdName_join_witness :
  Forall (fun p => clean p = true) (spec_parts scenario_group)
  /\ Naming.generateAdName scenario_group = JS.join "_" (spec_parts scenario_group).
Proof.
  assert (H : Forall (fun p => clean p = true) (spec_parts scenario_group))
    by (repeat constructor).
  split; [exact H|].
  exact (proj1 (proj2 (proj2 (proj2 (generateAdName_join scenario_group)))) H).
Defined.

(** C7: for every group, the name [generateAdName] returns has no two
    consecutive underscores, whatever underscores the fields contain, and
    begins with the ad number padded with zeros to three digits (exactly
    the three decimal digits for a number below 1000). *)
Theorem generateAdName_underscores (g : AdGroup) :
  no_double_underscore (Naming.generateAdName g)
  /\ (exists rest, Naming.generateAdName g = Naming.adNum g +:+ rest)
  /\ Naming.adNum g = JS.padStart (JS.String_of (ad_number g)) 3 "0"
  /\ (3 <= String.length (Naming.adNum g))%nat
  /\ (0 <= ad_number g < 1000 -> Naming.adNum g = three_digits (ad_number g)).
Proof.
  split; [|split; [|split; [|split]]].
  - unfold Naming.generateAdName. rewrite replace_runs_eq.
    apply double_free_sound, squeeze_double_free.
  - unfold Naming.generateAdName. rewrite name_parts_spec, replace_runs_eq.
    destruct (spec_parts_shape g) as (q & r & ->).
    rewrite join_cons_cons.
    destruct (squeeze_plain_prefix false (Naming.adNum g)
                ("_" +:+ JS.join "_" (q :: r)) (adNum_no_underscore g)) as [b' ->].
    eexists. reflexivity.
  - reflexivity.
  - apply adNum_length.
  - apply adNum_three_digits.
Qed.

Lemma generateAdName_underscores_witness :
  0 <= ad_number scenario_group < 1000
  /\ Naming.adNum scenario_group = "003".
Proof.
  assert (H : 0 <= ad_number scenario_group < 1000) by (cbn; lia).
  split; [exact H|].
  exact (proj2 (proj2 (proj2 (proj2 (generateAdName_underscores scenario_group)))) H).
Defined.

(** C8, as stated, fails: with [offer = false] and the campaign
    ["Offer"], the name is [001_Offer_IMG], in which the token appears. *)
Lemma offer_token_from_field :
  offer offer_campaign_group = false
  /\ Naming.generateAdName offer_campaign_group = "001_" +:+ "Offer" +:+ "_IMG"
  /\ In "Offer" (tokens (Naming.generateAdName offer_campaign_group)).
Proof. split; [|split]; [reflexivity..|]. vm_compute. auto. Qed.

Lemma concat_map_app {A B} (f : A -> list B) l1 l2 :
  concat (map f (l1 ++ l2)) = concat (map f l1) ++ concat (map f l2).
Proof. rewrite map_app. apply concat_app. Qed.

Lemma tokens_spec_parts g :
  concat (map tokens (spec_parts g)) =
  tokens_before_offer g ++ (if offer g then ["Offer"] else [])
    ++ tokens_after_offer g.
Proof.
  unfold spec_parts, tokens_before_offer, tokens_after_offer.
  cbn [map concat]. rewrite !concat_map_app, !tokens_nonempty.
  cbn [map concat]. rewrite app_nil_r.
  assert (Ho : concat (map tokens (if offer g then ["Offer"] else []))
               = if offer g then ["Offer"] else [])
    by (destruct (offer g); reflexivity).
  assert (Hd : concat (map tokens match date g with
                                  | Some d => nonempty d
                                  | None => []
                                  end)
               = match date g with Some d => tokens d | None => [] end)
    by (destruct (date g); [apply tokens_nonempty|reflexivity]).
  rewrite Ho, Hd, <- !app_assoc. reflexivity.
Qed.

(** C8 (amended): for every group none of whose text fields has ["Offer"]
    among its underscore-separated tokens, the tokens of the name are
    those of the number, campaign, product, format token, angle, hook and
    creator, then ["Offer"] exactly when the flag is set, then those of
    the date. So with [offer = false] the token does not appear, and with
    [offer = true] it appears exactly once, right after the last token of
    the creator or of the nearest non-empty field before it. *)
Theorem offer_token (g : AdGroup) (H : fields_without_offer g) :
  tokens (Naming.generateAdName g)
    = tokens_before_offer g ++ (if offer g then ["Offer"] else [])
        ++ tokens_after_offer g
  /\ ~ In "Offer" (tokens_before_offer g)
  /\ ~ In "Offer" (tokens_after_offer g)
  /\ count_occ string_dec (tokens (Naming.generateAdName g)) "Offer"
     = (if offer g then 1 else 0)%nat.
Proof.
  assert (Hname : tokens (Naming.generateAdName g)
            = tokens_before_offer g ++ (if offer g then ["Offer"] else [])
                ++ tokens_after_offer g).
  { rewrite generateAdName_tokens. apply tokens_spec_parts. }
  assert (Hpre : ~ In "Offer" (tokens_before_offer g)).
  { unfold tokens_before_offer. intros Hin. apply in_app_or in Hin as [Hin|Hin].
    - exact (adNum_not_Offer g Hin).
    - apply H. rewrite !app_assoc. apply in_or_app. left.
      rewrite <- !app_assoc. exact Hin. }
  assert (Hpost : ~ In "Offer" (tokens_after_offer g)).
  { intros Hin. apply H. rewrite !app_assoc. apply in_or_app. right. exact Hin. }
  split; [exact Hname|]. split; [exact Hpre|]. split; [exact Hpost|].
  rewrite Hname, !count_occ_app.
  rewrite (proj1 (count_occ_not_In string_dec _ _) Hpre).
  rewrite (proj1 (count_occ_not_In string_dec _ _) Hpost).
  destruct (offer g); reflexivity.
Qed.

Lemma offer_token_witness :
  fields_without_offer scenario_group
  /\ tokens (Naming.generateAdName scenario_group)
     = ["003"; "Q4Launch"; "VID"; "Hook1"; "Jess"; "Offer"].
Proof.
  assert (H : fields_without_offer scenario_group).
  { unfold fields_without_offer. vm_compute.
    intros Hin. repeat (destruct Hin as [Hin|Hin]; [discriminate|]). exact Hin. }
  split; [exact H|]. exact (proj1 (offer_token scenario_group H)).
Defined.

(** ** C2: [generateNewFileName] *)

Lemma split_no_dot s : no_dot s = true -> JS.split "." s = [s].
Proof.
  induction s as [|c r IH]; [reflexivity|].
  cbn. intros [Hc Hr]%andb_true_iff. apply negb_true_iff in Hc.
  rewrite Hc, (IH Hr). reflexivity.
Qed.

Lemma split_not_nil sep s : JS.split sep s <> [].
Proof.
  induction s as [|c r IH]; [discriminate|].
  cbn. destruct (Ascii.eqb c sep); [discriminate|].
  destruct (JS.split sep r); discriminate.
Qed.

Lemma split_app_sep sep a b :
  JS.split sep (a +:+ String sep b) = JS.split sep a ++ JS.split sep b.
Proof.
  induction a as [|c r IH].
  - rewrite append_nil. cbn. rewrite Ascii.eqb_refl. reflexivity.
  - rewrite append_cons. cbn [JS.split].
    destruct (Ascii.eqb c sep); rewrite IH; [reflexivity|].
    pose proof (split_not_nil sep r) as Hr.
    destruct (JS.split sep r); [contradiction|reflexivity].
Qed.

Lemma or_else_empty s : JS.or_else (Some s) "" = s.
Proof. destruct s; reflexivity. Qed.

(** The extension [generateNewFileName] appends. *)
Lemma extension_after_last_dot stem ext :
  no_dot ext = true ->
  JS.or_else (JS.pop (JS.split "." (stem +:+ "." +:+ ext))) "" = ext.
Proof.
  intros H. rewrite append_cons, append_nil, split_app_sep, (split_no_dot _ H).
  unfold JS.pop. rewrite last_snoc. apply or_else_empty.
Qed.

(** X3: when the original file name is [stem.ext] with no ['.'] in [ext],
    the new file name ends with ['.'] followed by exactly [ext]: the
    extension is what follows the last ['.'], and it is empty for a name
    that ends with ['.']. *)
Lemma generateNewFileName_extension g a stem ext :
  name (asset a) = stem +:+ "." +:+ ext -> no_dot ext = true ->
  Naming.generateNewFileName g a
  = Naming.adNum g +:+ "_" +:+ asset_type_str (asset_type (asset a)) +:+ "_"
      +:+ placement a +:+ "." +:+ ext.
Proof.
  intros Hn He. unfold Naming.generateNewFileName.
  rewrite Hn, (extension_after_last_dot _ _ He). reflexivity.
Qed.

(** C2 (what the code does where the claim fails): when the original file
    name contains no ['.'], [split('.').pop()] is the whole name, so the
    file name ends with ['.'] followed by the whole original name rather
    than by the empty string; the asset [clip] of group 12 gets
    [012_VID_story.clip]. *)
Theorem generateNewFileName_without_dot (g : AdGroup) (a : ProcessedAsset) :
  no_dot (name (asset a)) = true ->
  Naming.generateNewFileName g a
  = Naming.adNum g +:+ "_" +:+ asset_type_str (asset_type (asset a)) +:+ "_"
      +:+ placement a +:+ "." +:+ name (asset a).
Proof.
  intros H. unfold Naming.generateNewFileName.
  rewrite (split_no_dot _ H). unfold JS.pop. cbn [last].
  rewrite or_else_empty. reflexivity.
Qed.

Lemma generateNewFileName_without_dot_witness :
  no_dot (name (asset clip_no_ext)) = true
  /\ Naming.generateNewFileName group12 clip_no_ext = "012_VID_story.clip".
Proof.
  split; [reflexivity|].
  exact (generateNewFileName_without_dot group12 clip_no_ext eq_refl).
Defined.

Example generateNewFileName_raw_clip :
  Naming.generateNewFileName group12 raw_clip = "012_VID_story.mov".
Proof. reflexivity. Qed.

(** ** C3: the group sorter *)

Section SortFacts.
Context {A : Type} (cmp : A -> A -> Z).

Lemma insert_sorted_perm x l : Permutation (x :: l) (Sorter.insert_sorted cmp x l).
Proof.
  induction l as [|y r IH]; [reflexivity|].
  cbn. destruct (cmp x y <=? 0); [reflexivity|].
  rewrite perm_swap. apply perm_skip, IH.
Qed.

Lemma sort_perm l : Permutation l (Sorter.sort cmp l).
Proof.
  induction l as [|x r IH]; [reflexivity|].
  cbn. rewrite <- insert_sorted_perm. apply perm_skip, IH.
Qed.

Lemma consistentb_on l : Sorter.consistentb cmp l = true -> consistent_on cmp l.
Proof.
  unfold Sorter.consistentb, Sorter.totalb, Sorter.transitiveb.
  intros [Ht Hr]%andb_true_iff. rewrite forallb_forall in Ht, Hr. split.
  - intros a b Ha Hb. specialize (Ht a Ha). rewrite forallb_forall in Ht.
    specialize (Ht b Hb). apply orb_true_iff in Ht. unfold precedes.
    destruct Ht as [H|H]; apply Z.leb_le in H; auto.
  - intros a b c Ha Hb Hc Hab Hbc. specialize (Hr a Ha).
    rewrite forallb_forall in Hr. specialize (Hr b Hb).
    rewrite forallb_forall in Hr. specialize (Hr c Hc).
    unfold precedes in *. apply Z.leb_le in Hab, Hbc. rewrite Hab, Hbc in Hr.
    apply Z.leb_le. exact Hr.
Qed.

Lemma consistent_on_incl l l' :
  incl l' l -> consistent_on cmp l -> consistent_on cmp l'.
Proof.
  intros Hi [Ht Hr]. split.
  - intros a b Ha Hb. apply Ht; apply Hi; assumption.
  - intros a b c Ha Hb Hc. apply Hr; apply Hi; assumption.
Qed.

Lemma insert_sorted_strongly x l :
  consistent_on cmp (x :: l) ->
  StronglySorted (precedes cmp) l -> StronglySorted (precedes cmp) (Sorter.insert_sorted cmp x l).
Proof.
  intros Hc Hs. induction Hs as [|y r Hs IH Hy].
  - repeat constructor.
  - cbn. destruct (cmp x y <=? 0) eqn:E.
    + apply Z.leb_le in E. constructor; [constructor; assumption|].
      constructor; [exact E|].
      rewrite List.Forall_forall in Hy |- *. intros z Hz.
      destruct Hc as [_ Hr]. apply (Hr x y z); cbn; auto.
    + apply Z.leb_gt in E. constructor.
      * apply IH. eapply consistent_on_incl; [|exact Hc].
        intros z [->|Hz]; cbn; auto.
      * rewrite List.Forall_forall in Hy |- *. intros z Hz.
        apply (Permutation_in _ (Permutation_sym (insert_sorted_perm x r))) in Hz.
        destruct Hz as [<-|Hz]; [|apply Hy, Hz].
        destruct Hc as [Ht _]. destruct (Ht x y) as [H|H]; cbn; auto.
        unfold precedes in H. lia.
Qed.

Lemma sort_strongly l :
  consistent_on cmp l -> StronglySorted (precedes cmp) (Sorter.sort cmp l).
Proof.
  induction l as [|x r IH]; intros Hc; [constructor|].
  cbn. apply insert_sorted_strongly.
  - eapply consistent_on_incl; [|exact Hc].
    intros z [->|Hz]; [left; reflexivity|right].
    apply (Permutation_in _ (Permutation_sym (sort_perm r))), Hz.
  - apply IH. eapply consistent_on_incl; [|exact Hc]. intros z Hz. right. exact Hz.
Qed.

End SortFacts.

Lemma compareGroups_numeric lc a b x y :
  Sorter.extractNumber (Sorter.getFirstFilename a) = Some x ->
  Sorter.extractNumber (Sorter.getFirstFilename b) = Some y ->
  Sorter.compareGroups lc a b = x - y.
Proof. unfold Sorter.compareGroups. intros -> ->. reflexivity. Qed.

Lemma compareGroups_alphabetic lc a b :
  Sorter.extractNumber (Sorter.getFirstFilename a) = None
  \/ Sorter.extractNumber (Sorter.getFirstFilename b) = None ->
  Sorter.compareGroups lc a b
  = lc (Sorter.getFirstFilename a) (Sorter.getFirstFilename b).
Proof.
  unfold Sorter.compareGroups. intros [->| ->]; [reflexivity|].
  destruct (Sorter.extractNumber _); reflexivity.
Qed.

Lemma extractNumber_Some s :
  (exists n, Sorter.extractNumber s = Some n)
  <-> (exists c r, s = String c r /\ JS.is_digit c = true).
Proof.
  unfold Sorter.extractNumber. destruct s as [|c r]; cbn.
  - split; [intros [n H]; discriminate|intros (c & r & H & _); discriminate].
  - destruct (JS.is_digit c) eqn:E; cbn.
    + split; [intros _; eauto|intros _; eauto].
    + split; [intros [n H]; discriminate|].
      intros (c' & r' & H & Hd). injection H as <- <-. congruence.
Qed.

(** C3, as stated, fails: a group with no assets does not sort last among
    the groups lacking a leading number; its empty name precedes [b.mp4],
    so it is moved to the front. *)
Lemma sortGroups_empty_group_first :
  Sorter.sortGroups Sorter.codeunit_compare [g_alpha; g_noassets]
  = [g_noassets; g_alpha]
  /\ Sorter.extractNumber (Sorter.getFirstFilename g_alpha) = None
  /\ Sorter.compareGroups Sorter.codeunit_compare g_noassets g_alpha < 0.
Proof. split; [|split]; reflexivity. Qed.

(** C3 (amended): [sortGroups] returns a permutation of the groups that,
    whenever the comparator is consistent on them and their leading numbers
    are exactly representable (below 2^53), is sorted by this comparator
    on first-asset file names (empty for a group with no assets): two
    names that both start with ASCII digits, the numbers exactly
    representable, compare by the value of their digit runs, ascending; when
    a name does not start with a digit the full names compare by
    [localeCompare]. Under it a group with no assets never sorts after
    another group, since the empty name precedes or ties with every name.
    [9_b.mp4] sorts before [12_a.mp4]. *)
Theorem sortGroups_ordered (lc : string -> string -> Z)
    (lc_empty : forall s, lc "" s <= 0) (gs : list AdGroup) :
  Permutation gs (Sorter.sortGroups lc gs)
  /\ (Sorter.consistentb (Sorter.compareGroups lc) gs = true ->
      forallb (fun g => Sorter.exact_name (Sorter.getFirstFilename g)) gs = true ->
      StronglySorted (precedes (Sorter.compareGroups lc))
        (Sorter.sortGroups lc gs))
  /\ (forall a b x y,
        Sorter.exact_name (Sorter.getFirstFilename a) = true ->
        Sorter.exact_name (Sorter.getFirstFilename b) = true ->
        Sorter.extractNumber (Sorter.getFirstFilename a) = Some x ->
        Sorter.extractNumber (Sorter.getFirstFilename b) = Some y ->
        Sorter.compareGroups lc a b = x - y)
  /\ (forall a b,
        Sorter.extractNumber (Sorter.getFirstFilename a) = None
        \/ Sorter.extractNumber (Sorter.getFirstFilename b) = None ->
        Sorter.compareGroups lc a b
        = lc (Sorter.getFirstFilename a) (Sorter.getFirstFilename b))
  /\ (forall g h, assets g = [] ->
        Sorter.getFirstFilename g = ""
        /\ Sorter.compareGroups lc g h <= 0)
  /\ (forall a b,
        Sorter.getFirstFilename a = "12_a.mp4" ->
        Sorter.getFirstFilename b = "9_b.mp4" ->
        Sorter.sortGroups lc [a; b] = [b; a]
        /\ Sorter.sortGroups lc [b; a] = [b; a]).
Proof.
  split; [apply sort_perm|].
  split; [intros Hc _; apply sort_strongly, consistentb_on, Hc|].
  split; [intros a b x y _ _; apply compareGroups_numeric|].
  split; [apply compareGroups_alphabetic|].
  split.
  - intros g h Hg. unfold Sorter.compareGroups, Sorter.getFirstFilename.
    rewrite Hg. split; [reflexivity|]. cbn. apply lc_empty.
  - intros a b Ha Hb.
    assert (Hba : Sorter.compareGroups lc b a = -3)
      by (unfold Sorter.compareGroups; rewrite Ha, Hb; reflexivity).
    assert (Hab : Sorter.compareGroups lc a b = 3)
      by (unfold Sorter.compareGroups; rewrite Ha, Hb; reflexivity).
    unfold Sorter.sortGroups. cbn [Sorter.sort Sorter.insert_sorted].
    rewrite Hab, Hba. split; reflexivity.
Qed.

(** Under any collation that puts a name after the empty name, a group
    with no assets is moved in front of the group with that name. *)
Lemma sortGroups_empty_name_first lc g h :
  assets g = [] -> 0 < lc (Sorter.getFirstFilename h) "" ->
  Sorter.sortGroups lc [h; g] = [g; h].
Proof.
  intros Hg Hlt.
  assert (Hhg : Sorter.compareGroups lc h g = lc (Sorter.getFirstFilename h) "").
  { apply (eq_trans (compareGroups_alphabetic lc h g
             (or_intror (f_equal Sorter.extractNumber
                (f_equal (fun l => match l with
                                   | [] => ""
                                   | x :: _ => name (asset x)
                                   end) Hg))))).
    unfold Sorter.getFirstFilename. rewrite Hg. reflexivity. }
  unfold Sorter.sortGroups. cbn [Sorter.sort Sorter.insert_sorted].
  rewrite Hhg. destruct (Z.leb_spec (lc (Sorter.getFirstFilename h) "") 0); [lia|].
  reflexivity.
Qed.

Lemma codeunit_compare_empty s : Sorter.codeunit_compare "" s <= 0.
Proof. destruct s; cbn; lia. Qed.

Lemma sortGroups_ordered_witness :
  (forall s, Sorter.codeunit_compare "" s <= 0)
  /\ Sorter.sortGroups Sorter.codeunit_compare [g_alpha; g_12a; g_noassets; g_9b]
     = [g_noassets; g_9b; g_12a; g_alpha]
  /\ StronglySorted (precedes (Sorter.compareGroups Sorter.codeunit_compare))
       (Sorter.sortGroups Sorter.codeunit_compare
          [g_alpha; g_12a; g_noassets; g_9b]).
Proof.
  split; [exact codeunit_compare_empty|]. split; [reflexivity|].
  exact (proj1 (proj2 (sortGroups_ordered Sorter.codeunit_compare
           codeunit_compare_empty [g_alpha; g_12a; g_noassets; g_9b]))
         eq_refl eq_refl).
Defined.

(** ** C9: the table projection *)

Lemma render_rows_app G seen l1 l2 :
  Table.render_rows G seen (l1 ++ l2)
  = Table.render_rows G seen l1 ++ Table.render_rows G (seen_after seen l1) l2.
Proof.
  revert seen. induction l1 as [|r l1 IH]; intros seen; [reflexivity|].
  cbn. f_equal. apply IH.
Qed.

Lemma seen_after_elem x seen rs :
  x ∈ seen_after seen rs ->
  x ∈ seen \/ In x (map (fun r => group_id (Table.row_group r)) rs).
Proof.
  revert seen. induction rs as [|r rs IH]; intros seen; [auto|].
  cbn. intros H. apply IH in H as [H|H]; [|auto].
  apply elem_of_union in H as [H|H]; [|auto].
  apply elem_of_singleton in H. auto.
Qed.

Lemma group_rows_ids g f l x :
  In x (map (fun r => group_id (Table.row_group r)) (group_rows g f l)) ->
  x = group_id g.
Proof.
  unfold group_rows. revert f. induction l as [|a l IH]; intros f; [intros []|].
  rewrite imap_cons. cbn. intros [H|H]; [auto|]. apply (IH _ H).
Qed.

Lemma render_group_rows G seen g f l :
  map Table.row_view (Table.render_rows G seen (group_rows g f l))
  = imap (fun i a =>
            (g, a, Nat.eqb i 0 && negb (bool_decide (group_id g ∈ seen)),
             length (assets g))) l.
Proof.
  unfold group_rows. revert seen f. induction l as [|a l IH]; intros seen f.
  - reflexivity.
  - rewrite !imap_cons. cbn [Table.render_rows map]. f_equal.
    rewrite (IH _ (f ∘ S)). apply imap_ext. intros i y _. cbn.
    rewrite bool_decide_eq_true_2 by (apply elem_of_union_l, elem_of_singleton; reflexivity).
    rewrite andb_false_r. reflexivity.
Qed.

Lemma render_rows_projection G gs seen :
  List.NoDup (map group_id gs) ->
  (forall g, In g gs -> group_id g ∉ seen) ->
  map Table.row_view (Table.render_rows G seen (Table.rows gs))
  = Table.projection_spec gs.
Proof.
  revert seen. induction gs as [|g gs IH]; intros seen Hnd Hseen; [reflexivity|].
  cbn [map] in Hnd. apply List.NoDup_cons_iff in Hnd as [Hg Hnd].
  unfold Table.rows, Table.projection_spec. cbn [flat_map].
  fold (Table.rows gs). fold (Table.projection_spec gs).
  change (imap _ (assets g)) with (group_rows g (fun i => i) (assets g)) at 1.
  rewrite render_rows_app, map_app, render_group_rows. f_equal.
  - apply imap_ext. intros i a _.
    rewrite bool_decide_eq_false_2 by (apply Hseen; left; reflexivity).
    cbn. rewrite andb_true_r. reflexivity.
  - apply IH; [exact Hnd|]. intros g' Hg' Hin.
    apply seen_after_elem in Hin as [Hin|Hin].
    + apply (Hseen g'); [right; exact Hg'|exact Hin].
    + apply group_rows_ids in Hin. apply Hg. rewrite <- Hin.
      apply in_map. exact Hg'.
Qed.

(** C9: given the sorted groups, which carry distinct ids, the table has
    exactly one row per (group, asset) pair, in the order of the groups
    and, inside a group, of its assets; a row's flag is set exactly when
    it is the first row of its group, and its span is the group's number
    of assets. *)
Theorem AssetTable_projection (gs : list AdGroup) :
  List.NoDup (map group_id gs) ->
  map Table.row_view (Table.AssetTable gs) = Table.projection_spec gs
  /\ map Table.rendered (Table.AssetTable gs) = Table.rows gs.
Proof.
  intros Hnd. split.
  - apply render_rows_projection; [exact Hnd|]. intros g _. apply not_elem_of_empty.
  - unfold Table.AssetTable. generalize (∅ : gset string).
    induction (Table.rows gs) as [|r rs IH]; intros seen; [reflexivity|].
    cbn. f_equal. apply IH.
Qed.

Lemma AssetTable_projection_witness :
  List.NoDup (map group_id two_groups)
  /\ map Table.row_view (Table.AssetTable two_groups)
     = [ (group_of "g1" 1 ["9_a.mp4"; "9_b.mp4"], named_asset "9_a.mp4", true, 2%nat);
         (group_of "g1" 1 ["9_a.mp4"; "9_b.mp4"], named_asset "9_b.mp4", false, 2%nat);
         (group_of "g2" 2 ["12_a.mp4"], named_asset "12_a.mp4", true, 1%nat) ].
Proof.
  assert (H : List.NoDup (map group_id two_groups)).
  { cbn. repeat constructor; cbn; intros Hin;
      repeat (destruct Hin as [Hin|Hin]; [discriminate|]); exact Hin. }
  split; [exact H|]. exact (proj1 (AssetTable_projection two_groups H)).
Defined.

(** With two groups under one id the second group's first row is not
    flagged: the loop tells groups apart by id only. *)
Example AssetTable_shared_id :
  map Table.isFirstInGroup
    (Table.AssetTable [group_of "g1" 1 ["a.mp4"]; group_of "g1" 2 ["b.mp4"]])
  = [true; false].
Proof. reflexivity. Qed.

(** ** C10: the move drop-down *)

Lemma move_options_elem groups row v :
  In v (Table.move_options groups row)
  <-> v = "" \/ v = "new"
      \/ exists g, In g groups
           /\ group_id g <> group_id (Table.row_group row) /\ v = group_id g.
Proof.
  unfold Table.move_options. cbn [In]. rewrite in_app_iff, in_map_iff. cbn [In].
  split.
  - intros [H|[(g & Hv & Hg)|[H|[]]]]; [auto|right; right|auto].
    apply filter_In in Hg as [Hg Hne]. exists g. split; [exact Hg|].
    split; [|auto]. apply negb_true_iff, String.eqb_neq in Hne. exact Hne.
  - intros [H|[H|(g & Hg & Hne & Hv)]]; [auto|auto|].
    right. left. exists g. split; [auto|]. apply filter_In. split; [exact Hg|].
    apply negb_true_iff, String.eqb_neq. exact Hne.
Qed.

Lemma render_rows_options G seen rs r :
  In r (Table.render_rows G seen rs) ->
  Table.moveOptions r = Table.move_options G (Table.rendered r)
  /\ In (Table.rendered r) rs.
Proof.
  revert seen. induction rs as [|x rs IH]; intros seen; [intros []|].
  cbn. intros [<-|H]; [cbn; auto|]. destruct (IH _ H). auto.
Qed.

Lemma handleRegroupAsset_sent {St} (api : Client.Backend St) a t w :
  Client.sent (snd (Client.handleRegroupAsset api a t w))
  = Client.sent w ++ [Client.RegroupAsset a t].
Proof.
  unfold Client.handleRegroupAsset, Client.try_catch, Client.bind,
    Client.api_regroupAsset, Client.call.
  destruct (Client.regroupAsset api a t (Client.store w)) as [[e|d] s'];
    reflexivity.
Qed.

(** C10: in every row of the table, the options of the move drop-down
    are, besides the placeholder, exactly the ids of the groups other than
    the row's own group and the new-group option. Choosing one of them makes
    no call or calls [onRegroupAsset] for the row's asset with a target that
    is never the row's own group: no target for the new-group option, else
    the chosen id of another group. The page then sends that one regroup
    request. *)
Theorem move_targets (gs : list AdGroup) (r : Table.RenderedRow) :
  In r (Table.AssetTable gs) ->
  let own := group_id (Table.row_group (Table.rendered r)) in
  (forall v, In v (Table.moveOptions r)
     <-> v = "" \/ v = "new"
         \/ exists g, In g gs /\ group_id g <> own /\ v = group_id g)
  /\ (forall on v a t,
        In v (Table.moveOptions r) ->
        Table.move_onChange on (Table.rendered r) v = Some (a, t) ->
        a = asset_id (asset (Table.row_asset (Table.rendered r)))
        /\ t <> Some own
        /\ (t = None
            \/ exists g, In g gs /\ group_id g <> own /\ t = Some (group_id g)))
  /\ Table.move_onChange true (Table.rendered r) "new"
     = Some (asset_id (asset (Table.row_asset (Table.rendered r))), None)
  /\ (forall g, In g gs -> group_id g <> own ->
        group_id g <> "" -> group_id g <> "new" ->
        Table.move_onChange true (Table.rendered r) (group_id g)
        = Some (asset_id (asset (Table.row_asset (Table.rendered r))),
                Some (group_id g)))
  /\ (forall St (api : Client.Backend St) a t w,
        Client.sent (snd (Client.handleRegroupAsset api a t w))
        = Client.sent w ++ [Client.RegroupAsset a t]).
Proof.
  intros Hr own. apply render_rows_options in Hr as [Hopt _].
  split; [|split; [|split; [|split]]].
  - intros v. rewrite Hopt. apply move_options_elem.
  - intros on v a t Hv Hch. rewrite Hopt in Hv.
    apply move_options_elem in Hv.
    unfold Table.move_onChange, Table.handleMoveAsset in Hch.
    destruct (String.eqb v "new") eqn:En.
    + destruct on; [|discriminate]. injection Hch as <- <-.
      split; [reflexivity|]. split; [discriminate|]. left. reflexivity.
    + destruct (JS.truthy v) eqn:Et; [|discriminate].
      destruct on; [|discriminate]. injection Hch as <- <-.
      split; [reflexivity|].
      destruct Hv as [->|[->|(g & Hg & Hne & ->)]]; [discriminate..|].
      split; [intros [= H]; apply Hne, H|]. right. exists g. auto.
  - reflexivity.
  - intros g _ _ Hne Hnew. unfold Table.move_onChange.
    apply String.eqb_neq in Hnew. rewrite Hnew.
    destruct (group_id g); [contradiction|reflexivity].
  - intros St api a t w. apply handleRegroupAsset_sent.
Qed.

Lemma move_targets_witness :
  exists r, In r (Table.AssetTable two_groups)
    /\ Table.moveOptions r = [""; "g2"; "new"]
    /\ Table.move_onChange true (Table.rendered r) "g2" = Some ("a-9_a.mp4", Some "g2")
    /\ (forall v, In v (Table.moveOptions r)
          <-> v = "" \/ v = "new"
              \/ exists g, In g two_groups /\ group_id g <> "g1" /\ v = group_id g).
Proof.
  assert (Hin : In (hd_error (Table.AssetTable two_groups))
                   (map Some (Table.AssetTable two_groups)))
    by (left; reflexivity).
  apply in_map_iff in Hin as (r & Hr & Hin).
  exists r. split; [exact Hin|].
  injection Hr as ->. split; [reflexivity|]. split; [reflexivity|].
  exact (proj1 (move_targets two_groups _ Hin)).
Defined.

(** ** C4, C5: the mutation handlers *)

Section HandlerFacts.
Context {St : Type} (api : Client.Backend St).

Lemma world_eta (w : Client.World St) :
  {| Client.store := Client.store w; Client.sent := Client.sent w;
     Client.data := Client.data w; Client.console := Client.console w |} = w.
Proof. destruct w; reflexivity. Qed.

Lemma update_body_run f v g w :
  Client.bind (Client.api_updateGroup api (group_id g) [(f, v)])
    (fun _ => Client.ret tt) w
  = (match fst (Client.updateGroup api (group_id g) [(f, v)] (Client.store w)) with
     | inl e => inl e
     | inr _ => inr tt
     end,
     {| Client.store := snd (Client.updateGroup api (group_id g) [(f, v)] (Client.store w));
        Client.sent := Client.sent w ++ [update_request f v g];
        Client.data := Client.data w;
        Client.console := Client.console w |}).
Proof.
  unfold Client.bind, Client.api_updateGroup, Client.call, Client.ret.
  destruct (Client.updateGroup api (group_id g) [(f, v)] (Client.store w))
    as [[e|g'] s']; reflexivity.
Qed.

Lemma rejection_update f v g s :
  Client.rejection api (update_request f v g) s
  = Client.thrown (fst (Client.updateGroup api (group_id g) [(f, v)] s)).
Proof. reflexivity. Qed.

Lemma after_update f v g s :
  Client.after api (update_request f v g) s
  = snd (Client.updateGroup api (group_id g) [(f, v)] s).
Proof. reflexivity. Qed.

Lemma for_of_updates f v gs w :
  Client.for_of gs
    (fun group => Client.bind
       (Client.api_updateGroup api (group_id group) [(f, v)])
       (fun _ => Client.ret tt)) w
  = let reqs := map (update_request f v) gs in
    match Client.first_rejected api reqs (Client.store w) with
    | Some (k, e) =>
        (inl e, {| Client.store := Client.replay api (take (S k) reqs) (Client.store w);
                   Client.sent := Client.sent w ++ take (S k) reqs;
                   Client.data := Client.data w;
                   Client.console := Client.console w |})
    | None =>
        (inr tt, {| Client.store := Client.replay api reqs (Client.store w);
                    Client.sent := Client.sent w ++ reqs;
                    Client.data := Client.data w;
                    Client.console := Client.console w |})
    end.
Proof.
  revert w. induction gs as [|g gs IH]; intros w.
  - cbn. rewrite app_nil_r, world_eta. reflexivity.
  - cbn [Client.for_of map]. unfold Client.bind at 1.
    rewrite update_body_run, IH. cbn zeta.
    cbn [Client.first_rejected Client.store Client.sent Client.data Client.console].
    rewrite rejection_update, after_update.
    destruct (Client.updateGroup api (group_id g) [(f, v)] (Client.store w))
      as [[e|g'] s'] eqn:E; cbn [fst snd Client.thrown].
    + unfold Client.replay. cbn [take fold_left]. rewrite after_update, E.
      reflexivity.
    + destruct (Client.first_rejected api (map (update_request f v) gs) s')
        as [[k e]|]; unfold Client.replay; cbn [take fold_left];
        rewrite after_update, E, <- app_assoc; reflexivity.
Qed.

Lemma handleBulkApply_run f v w d :
  Client.data w = Some d ->
  Client.handleBulkApply api f v w
  = let reqs := map (update_request f v) (groups d) in
    match Client.first_rejected api reqs (Client.store w) with
    | Some (k, e) =>
        (inr tt, {| Client.store := Client.replay api (take (S k) reqs) (Client.store w);
                    Client.sent := Client.sent w ++ take (S k) reqs;
                    Client.data := Client.data w;
                    Client.console := Client.console w ++ [("Bulk apply failed:", e)] |})
    | None =>
        match Client.getGroups api (Client.replay api reqs (Client.store w)) with
        | (inr d', s') =>
            (inr tt, {| Client.store := s';
                        Client.sent := Client.sent w ++ reqs ++ [Client.GetGroups];
                        Client.data := Some d';
                        Client.console := Client.console w |})
        | (inl e, s') =>
            (inr tt, {| Client.store := s';
                        Client.sent := Client.sent w ++ reqs ++ [Client.GetGroups];
                        Client.data := Client.data w;
                        Client.console := Client.console w ++ [("Bulk apply failed:", e)] |})
        end
    end.
Proof.
  intros Hd. destruct w as [s snt dt c]. cbn in Hd. subst dt.
  unfold Client.handleBulkApply. cbn [Client.data].
  unfold Client.try_catch. unfold Client.bind at 1. rewrite for_of_updates.
  cbn zeta. cbn [Client.store Client.sent Client.data Client.console].
  destruct (Client.first_rejected api (map (update_request f v) (groups d)) s)
    as [[k e]|].
  - reflexivity.
  - unfold Client.bind, Client.api_getGroups, Client.call, Client.setData,
      Client.console_error. cbn [Client.store Client.sent Client.data Client.console].
    destruct (Client.getGroups api _) as [[e|d'] s']; rewrite <- app_assoc; reflexivity.
Qed.

End HandlerFacts.

Section ProtocolFacts.
Context {St : Type} (api : Client.Backend St).

Lemma first_rejected_spec rs s k e :
  Client.first_rejected api rs s = Some (k, e) ->
  Client.first_rejected api (take k rs) s = None
  /\ exists r, rs !! k = Some r
       /\ Client.rejection api r (Client.replay api (take k rs) s) = Some e.
Proof.
  revert s k e. induction rs as [|r rs IH]; intros s k e H; [discriminate|].
  cbn [Client.first_rejected] in H.
  destruct (Client.rejection api r s) as [e'|] eqn:Er.
  - injection H as <- <-. split; [reflexivity|]. exists r. auto.
  - destruct (Client.first_rejected api rs (Client.after api r s))
      as [[k' e']|] eqn:Ef; [|discriminate].
    injection H as <- <-. destruct (IH _ _ _ Ef) as (Hn & r' & Hr' & Hrej).
    split.
    + cbn [take Client.first_rejected]. rewrite Er, Hn. reflexivity.
    + exists r'. auto.
Qed.

Lemma handleGroupUpdate_reread g u w :
  refreshed_by_reread api (Client.UpdateGroupFields g u) w
    (snd (Client.handleGroupUpdate api g u w)).
Proof.
  unfold refreshed_by_reread, Client.replay.
  cbn [Client.mutation_requests Client.first_rejected Client.rejection
       console_label take fold_left Client.after].
  unfold Client.handleGroupUpdate, Client.try_catch, Client.bind,
    Client.api_updateGroup, Client.api_getGroups, Client.call,
    Client.setData, Client.console_error.
  destruct (Client.updateGroup api g u (Client.store w)) as [[e|g'] s1];
    cbn [fst snd Client.thrown Client.store Client.sent Client.data Client.console];
    [auto|].
  destruct (Client.getGroups api s1) as [[e|d] s2];
    cbn [fst snd Client.store Client.sent Client.data Client.console];
    rewrite <- app_assoc; auto.
Qed.

Lemma handleAssetUpdate_reread g a u w :
  refreshed_by_reread api (Client.UpdateAssetFields g a u) w
    (snd (Client.handleAssetUpdate api g a u w)).
Proof.
  unfold refreshed_by_reread, Client.replay.
  cbn [Client.mutation_requests Client.first_rejected Client.rejection
       console_label take fold_left Client.after].
  unfold Client.handleAssetUpdate, Client.try_catch, Client.bind,
    Client.api_updateAsset, Client.api_getGroups, Client.call,
    Client.setData, Client.console_error.
  destruct (Client.updateAsset api g a u (Client.store w)) as [[e|g'] s1];
    cbn [fst snd Client.thrown Client.store Client.sent Client.data Client.console];
    [auto|].
  destruct (Client.getGroups api s1) as [[e|d] s2];
    cbn [fst snd Client.store Client.sent Client.data Client.console];
    rewrite <- app_assoc; auto.
Qed.

Lemma handleRenumber_reread n w :
  refreshed_by_reread api (Client.RenumberGroups n) w
    (snd (Client.handleRenumber api n w)).
Proof.
  unfold refreshed_by_reread, Client.replay.
  cbn [Client.mutation_requests Client.first_rejected Client.rejection
       console_label take fold_left Client.after].
  unfold Client.handleRenumber, Client.try_catch, Client.bind,
    Client.fetch_renumber, Client.api_getGroups, Client.call, Client.setData,
    Client.console_error, Client.ret, Client.throw.
  destruct (Client.renumber api n (Client.store w)) as [[e|[|]] s1];
    cbn [fst snd Client.thrown Client.store Client.sent Client.data Client.console];
    [auto| |auto].
  destruct (Client.getGroups api s1) as [[e|d] s2];
    cbn [fst snd Client.store Client.sent Client.data Client.console];
    rewrite <- app_assoc; auto.
Qed.

Lemma handleBulkApply_reread f v w :
  refreshed_by_reread api (Client.BulkApplyField f v) w
    (snd (Client.handleBulkApply api f v w)).
Proof.
  unfold refreshed_by_reread. cbn [Client.mutation_requests console_label].
  destruct (Client.data w) as [d|] eqn:Hd.
  - rewrite (handleBulkApply_run api f v w d Hd). cbv zeta.
    fold (update_request f v).
    destruct (Client.first_rejected api (map (update_request f v) (groups d))
                (Client.store w)) as [[k e]|];
      [cbn [snd Client.store Client.sent Client.data Client.console]; auto|].
    split; [destruct (Client.getGroups api _) as [[e|d'] s']; reflexivity|].
    destruct (Client.getGroups api _) as [[e|d'] s'];
      cbn [snd Client.store Client.sent Client.data Client.console]; auto.
  - unfold Client.handleBulkApply. rewrite Hd. reflexivity.
Qed.

Lemma handleRegroupAsset_response a t w :
  refreshed_by_response api a t w (snd (Client.handleRegroupAsset api a t w)).
Proof.
  unfold refreshed_by_response, Client.handleRegroupAsset, Client.try_catch,
    Client.bind, Client.api_regroupAsset, Client.call, Client.setData,
    Client.console_error.
  destruct (Client.regroupAsset api a t (Client.store w)) as [[e|d] s'];
    cbn; auto.
Qed.

End ProtocolFacts.

(** C4, as stated, fails for RegroupAsset: moving [9_b.mp4] into a new
    group sends the regroup request only; the page's data change to the
    snapshot in that response and no [GetGroups] request follows. *)
Lemma regroup_without_reread :
  let w := toy_world [g_one; g_two] [g_one; g_two] in
  let w' := snd (Client.handle toy_api (Client.RegroupAssetTo "a-9_b.mp4" None) w) in
  ~ refreshed_by_reread toy_api (Client.RegroupAssetTo "a-9_b.mp4" None) w w'
  /\ Client.sent w' = [Client.RegroupAsset "a-9_b.mp4" None]
  /\ Client.data w' <> Client.data w
  /\ match fst (Client.regroupAsset toy_api "a-9_b.mp4" None (Client.store w)) with
     | inr d => Client.data w' = Some d
     | inl _ => False
     end.
Proof.
  cbv zeta. split; [|split; [|split]].
  - intros [Hsent _]. vm_compute in Hsent. discriminate.
  - reflexivity.
  - vm_compute. discriminate.
  - reflexivity.
Qed.

(** C4 (amended): for UpdateGroupFields, UpdateAssetFields, RenumberGroups
    and BulkApplyField the re-read is mandatory: whenever every mutation
    request of the intent succeeds, a separate [GetGroups] request is sent
    after them, and the page's data become exactly the snapshot it
    answers; nothing is taken from the mutation's own response. When a
    mutation request fails, no request follows it, and when it or the
    re-read fails the data stay as they were and the error is logged; a
    bulk apply with no data loaded does nothing. For RegroupAsset the only
    request is the regroup itself, and the data become the snapshot
    carried by its response. *)
Theorem mutation_refresh {St : Type} (api : Client.Backend St)
    (i : Client.Intent) (w : Client.World St) :
  match i with
  | Client.RegroupAssetTo a t =>
      refreshed_by_response api a t w (snd (Client.handle api i w))
  | _ => refreshed_by_reread api i w (snd (Client.handle api i w))
  end.
Proof.
  destruct i as [g u|g a u|a t|n|f v]; cbn [Client.handle].
  - apply handleGroupUpdate_reread.
  - apply handleAssetUpdate_reread.
  - apply handleRegroupAsset_response.
  - apply handleRenumber_reread.
  - apply handleBulkApply_reread.
Qed.

Example mutation_refresh_update :
  let w := toy_world [g_one; g_two] [g_one; g_two] in
  let w' := snd (Client.handle toy_api
                   (Client.UpdateGroupFields "g1" [("campaign", Client.VStr "Q4")]) w) in
  Client.sent w'
  = [Client.UpdateGroup "g1" [("campaign", Client.VStr "Q4")]; Client.GetGroups]
  /\ Client.data w' = Some (snapshot_of [g_one; g_two]).
Proof. split; reflexivity. Qed.

(** ** C5: bulk apply *)

(** C5, as stated, fails: when the store no longer knows the first group,
    or knows the first but not the second, the bulk apply updates zero or
    one group before it fails, and in both cases the caller gets the same
    result, the same data and the same console line: no count is reported. *)
Lemma bulk_apply_reports_no_count :
  let wa := toy_world [g_two] [g_one; g_two] in
  let wb := toy_world [g_one] [g_one; g_two] in
  applied (Client.store (snd (bulk_campaign wa))) = []
  /\ applied (Client.store (snd (bulk_campaign wb))) = ["g1"]
  /\ fst (bulk_campaign wa) = inr tt
  /\ fst (bulk_campaign wb) = inr tt
  /\ Client.data (snd (bulk_campaign wa)) = Client.data (snd (bulk_campaign wb))
  /\ Client.console (snd (bulk_campaign wa)) = Client.console (snd (bulk_campaign wb))
  /\ Client.console (snd (bulk_campaign wa)) = [("Bulk apply failed:", "Group not found")].
Proof. cbv zeta. repeat split; reflexivity. Qed.

(** C5 (amended): BulkApplyField sends one UpdateGroup request per group of
    the page's data, in order, each after the previous one has been
    answered. When the request for the K-th group is the first to fail,
    no later request is sent, the requests for the groups before K have
    taken effect in the store, no snapshot is re-read and the page's data
    stay as they were; the error is written with [console.error] under
    the label [Bulk apply failed:] and the handler returns normally,
    without the error and without any count of updated groups. *)
Theorem handleBulkApply_prefix {St : Type} (api : Client.Backend St)
    (f : string) (v : Client.FieldValue) (w : Client.World St) (d : GroupedAssets) :
  Client.data w = Some d ->
  let reqs := map (update_request f v) (groups d) in
  let w' := snd (Client.handleBulkApply api f v w) in
  fst (Client.handleBulkApply api f v w) = inr tt
  /\ (forall k e,
        Client.first_rejected api reqs (Client.store w) = Some (k, e) ->
        Client.first_rejected api (take k reqs) (Client.store w) = None
        /\ (exists g, groups d !! k = Some g
              /\ Client.rejection api (update_request f v g)
                   (Client.replay api (take k reqs) (Client.store w)) = Some e)
        /\ Client.sent w' = Client.sent w ++ take (S k) reqs
        /\ Client.store w' = Client.replay api (take (S k) reqs) (Client.store w)
        /\ Client.data w' = Client.data w
        /\ Client.console w' = Client.console w ++ [("Bulk apply failed:", e)])
  /\ (Client.first_rejected api reqs (Client.store w) = None ->
        Client.sent w' = Client.sent w ++ reqs ++ [Client.GetGroups]).
Proof.
  intros Hd reqs w'. subst w'. rewrite (handleBulkApply_run api f v w d Hd).
  cbv zeta. fold reqs.
  split; [|split].
  - destruct (Client.first_rejected api reqs (Client.store w)) as [[k e]|];
      [reflexivity|]. destruct (Client.getGroups api _) as [[e|d'] s']; reflexivity.
  - intros k e Hk. rewrite Hk. cbn [snd Client.sent Client.store Client.data Client.console].
    destruct (first_rejected_spec api _ _ _ _ Hk) as (Hn & r & Hr & Hrej).
    split; [exact Hn|]. split; [|auto].
    unfold reqs in Hr. rewrite list_lookup_fmap in Hr.
    destruct (groups d !! k) as [g|]; [|discriminate].
    injection Hr as <-. exists g. auto.
  - intros Hn. rewrite Hn.
    destruct (Client.getGroups api _) as [[e|d'] s']; reflexivity.
Qed.

Lemma handleBulkApply_prefix_witness :
  let w := toy_world [g_one] [g_one; g_two] in
  Client.data w = Some (snapshot_of [g_one; g_two])
  /\ Client.first_rejected toy_api
       (map (update_request "campaign" (Client.VStr "Q4")) [g_one; g_two])
       (Client.store w) = Some (1%nat, "Group not found")
  /\ Client.sent (snd (bulk_campaign w))
     = [Client.UpdateGroup "g1" [("campaign", Client.VStr "Q4")];
        Client.UpdateGroup "g2" [("campaign", Client.VStr "Q4")]]
  /\ Client.console (snd (bulk_campaign w)) = [("Bulk apply failed:", "Group not found")].
Proof.
  cbv zeta.
  pose proof (handleBulkApply_prefix toy_api "campaign" (Client.VStr "Q4")
                (toy_world [g_one] [g_one; g_two])
                (snapshot_of [g_one; g_two]) eq_refl) as H.
  cbv zeta in H. destruct H as (_ & H & _).
  destruct (H 1%nat "Group not found" eq_refl) as (_ & _ & Hs & _ & _ & Hc).
  split; [reflexivity|]. split; [reflexivity|]. split; [exact Hs|exact Hc].
Defined.

(** ** C6: the start number *)

Lemma handleRenumber_first_request {St : Type} (api : Client.Backend St) n w :
  exists rest,
    Client.sent (snd (Client.handleRenumber api n w))
    = Client.sent w ++ Client.Renumber n :: rest.
Proof.
  unfold Client.handleRenumber, Client.try_catch, Client.bind,
    Client.fetch_renumber, Client.api_getGroups, Client.call, Client.setData,
    Client.console_error, Client.ret, Client.throw.
  destruct (Client.renumber api n (Client.store w)) as [[e|[|]] s1];
    cbn [fst snd Client.store Client.sent Client.data Client.console].
  - exists []. reflexivity.
  - destruct (Client.getGroups api s1) as [[e|d] s2];
      cbn [snd Client.sent]; exists [Client.GetGroups];
      rewrite <- app_assoc; reflexivity.
  - exists []. reflexivity.
Qed.

(** C6 (what the code does where the claim fails): a negative start value
    typed into the field is kept, since only [NaN] and zero are replaced by
    1, and pressing Renumber sends it as [start_number]: typing [-5] sends
    the renumber request with [-5]. Zero and an empty field do become 1. *)
Theorem renumber_negative_start {St : Type} (api : Client.Backend St)
    (w : Client.World St) :
  Toolbar.onChange_startNumber "-5" = -5
  /\ (exists rest,
        Client.sent (snd (Toolbar.type_then_renumber api "-5" w))
        = Client.sent w ++ Client.Renumber (-5) :: rest)
  /\ Toolbar.onChange_startNumber "0" = 1
  /\ Toolbar.onChange_startNumber "" = 1.
Proof.
  split; [reflexivity|]. split; [|split; reflexivity].
  unfold Toolbar.type_then_renumber, Toolbar.click_renumber.
  change (Toolbar.onChange_startNumber "-5") with (-5).
  apply handleRenumber_first_request.
Qed.

(** * Further properties of the code *)

(** ** Printing a number and reading it back *)

Lemma parse_digits_acc d acc :
  JS.parse_digits (Z.pos acc) (NilEmpty.string_of_uint d)
  = Z.pos (Pos.of_uint_acc d acc).
Proof.
  revert acc. induction d; intros acc; cbn [NilEmpty.string_of_uint JS.parse_digits Pos.of_uint_acc];
    [reflexivity|..]; rewrite <- IHd; f_equal; unfold JS.digit_value; cbn; lia.
Qed.

Lemma parse_digits_uint d :
  JS.parse_digits 0 (NilEmpty.string_of_uint d) = Z.of_uint d.
Proof.
  unfold Z.of_uint.
  induction d; cbn [NilEmpty.string_of_uint JS.parse_digits Pos.of_uint];
    [reflexivity|exact IHd|..];
    match goal with
    | |- JS.parse_digits ?a _ = Z.of_N (N.pos (Pos.of_uint_acc _ ?p)) =>
        change a with (Z.pos p); apply parse_digits_acc
    end.
Qed.

Lemma string_of_uint_digits d :
  all_chars JS.is_digit (NilEmpty.string_of_uint d) = true.
Proof. induction d; cbn; try reflexivity; exact IHd. Qed.

(** [String(n)] for [n >= 0]: only digits, at least one, and their value
    is [n]. *)
Lemma String_of_nonneg n :
  0 <= n ->
  all_chars JS.is_digit (JS.String_of n) = true
  /\ JS.truthy (JS.String_of n) = true
  /\ JS.parse_digits 0 (JS.String_of n) = n.
Proof.
  intros Hn. unfold JS.String_of.
  pose proof (DecimalZ.of_to n) as Hv.
  destruct n as [|p|p]; [repeat split; reflexivity| |lia].
  cbn [Z.to_int NilZero.string_of_int] in *. cbn [Z.of_int] in Hv.
  unfold NilZero.string_of_uint.
  destruct (Pos.to_uint p) eqn:E; try discriminate Hv;
    (split; [apply (string_of_uint_digits (_ _))|]);
    (split; [reflexivity|]);
    rewrite (parse_digits_uint (_ _)); exact Hv.
Qed.

Lemma leading_digits_prefix ds c rest :
  all_chars JS.is_digit ds = true -> JS.is_digit c = false ->
  JS.leading_digits (ds +:+ String c rest) = ds.
Proof.
  intros Hd Hc. induction ds as [|x r IH].
  - rewrite append_nil. cbn. rewrite Hc. reflexivity.
  - cbn in Hd. apply andb_true_iff in Hd as [Hx Hr].
    rewrite append_cons. cbn. rewrite Hx, (IH Hr). reflexivity.
Qed.

Lemma parse_digits_zeros k s :
  JS.parse_digits 0 (JS.repeat_char "0" k +:+ s) = JS.parse_digits 0 s.
Proof.
  induction k as [|k IH]; [reflexivity|].
  cbn [JS.repeat_char]. rewrite append_cons. cbn [JS.parse_digits]. exact IH.
Qed.

Lemma extractNumber_adNum g c rest :
  0 <= ad_number g -> JS.is_digit c = false ->
  Sorter.extractNumber (Naming.adNum g +:+ String c rest) = Some (ad_number g).
Proof.
  intros Hn Hc. destruct (String_of_nonneg _ Hn) as (Hd & Ht & Hv).
  assert (Hall : all_chars JS.is_digit (Naming.adNum g) = true).
  { unfold Naming.adNum, JS.padStart. rewrite all_chars_app, Hd.
    rewrite repeat_char_chars; reflexivity. }
  unfold Sorter.extractNumber. rewrite (leading_digits_prefix _ _ _ Hall Hc).
  rewrite adNum_truthy. f_equal.
  unfold Naming.adNum, JS.padStart. rewrite parse_digits_zeros. exact Hv.
Qed.

Lemma squeeze_plain_start b a r :
  no_underscore a = true -> JS.truthy a = true ->
  squeeze b (a +:+ r) = a +:+ squeeze false r.
Proof.
  revert b. induction a as [|c t IH]; intros b Hn Ht; [discriminate|].
  cbn in Hn. apply andb_true_iff in Hn as [Hc Hr]. apply negb_true_iff in Hc.
  rewrite append_cons, squeeze_cons, Hc, append_cons. f_equal.
  destruct t as [|c2 t2]; [reflexivity|]. apply IH; [exact Hr|reflexivity].
Qed.

Lemma generateAdName_shape g :
  exists rest, Naming.generateAdName g = Naming.adNum g +:+ String "_" rest.
Proof.
  unfold Naming.generateAdName. rewrite name_parts_spec, replace_runs_eq.
  destruct (spec_parts_shape g) as (q & r & ->).
  rewrite join_cons_cons.
  rewrite (squeeze_plain_start _ _ _ (adNum_no_underscore g) (adNum_truthy g)).
  change ("_" +:+ JS.join "_" (q :: r)) with (String "_" (JS.join "_" (q :: r))).
  rewrite squeeze_cons. cbn [JS.is_underscore]. eexists. reflexivity.
Qed.

(** X1: a renamed file starts with its group's number: for a group whose
    ad number is a non-negative integer below 2^53 (printed in full by
    [String] and read exactly by [parseInt]), [extractNumber] reads that
    number back from every file name [generateNewFileName] builds, so
    renamed files sort by ad number. *)
Theorem extractNumber_generateNewFileName (g : AdGroup) (a : ProcessedAsset) :
  0 <= ad_number g < 2 ^ 53 ->
  Sorter.extractNumber (Naming.generateNewFileName g a) = Some (ad_number g)
  /\ Sorter.exact_name (Naming.generateNewFileName g a) = true.
Proof.
  intros [Hn Hb].
  assert (Hx : Sorter.extractNumber (Naming.generateNewFileName g a)
               = Some (ad_number g)); [|split;
    [exact Hx|unfold Sorter.exact_name; rewrite Hx; apply Z.ltb_lt, Hb]]. unfold Naming.generateNewFileName. cbv zeta.
  match goal with
  | |- context [Naming.adNum g +:+ "_" +:+ ?x] =>
      change (Naming.adNum g +:+ "_" +:+ x) with (Naming.adNum g +:+ String "_" x)
  end.
  apply extractNumber_adNum; [exact Hn|reflexivity].
Qed.

Lemma extractNumber_generateNewFileName_witness :
  0 <= ad_number group12 < 2 ^ 53
  /\ Sorter.extractNumber (Naming.generateNewFileName group12 raw_clip) = Some 12.
Proof.
  assert (H : 0 <= ad_number group12 < 2 ^ 53) by (cbn; lia).
  split; [exact H|].
  exact (proj1 (extractNumber_generateNewFileName group12 raw_clip H)).
Defined.

(** X2: for ad numbers that are non-negative integers below 2^53, the ad
    number can be read back from the ad name, so two groups with
    different such ad numbers never get the same name, whatever their
    other fields are. *)
Theorem generateAdName_number (g h : AdGroup) :
  0 <= ad_number g < 2 ^ 53 -> 0 <= ad_number h < 2 ^ 53 ->
  Sorter.extractNumber (Naming.generateAdName g) = Some (ad_number g)
  /\ (Naming.generateAdName g = Naming.generateAdName h ->
      ad_number g = ad_number h).
Proof.
  intros [Hg _] [Hh _].
  assert (Hx : forall k, 0 <= ad_number k ->
             Sorter.extractNumber (Naming.generateAdName k) = Some (ad_number k)).
  { intros k Hk. destruct (generateAdName_shape k) as [rest ->].
    apply extractNumber_adNum; [exact Hk|reflexivity]. }
  split; [apply Hx, Hg|].
  intros He. pose proof (Hx g Hg) as H1. rewrite He, (Hx h Hh) in H1.
  congruence.
Qed.

Lemma generateAdName_number_witness :
  0 <= ad_number scenario_group < 2 ^ 53 /\ 0 <= ad_number group12 < 2 ^ 53
  /\ Sorter.extractNumber (Naming.generateAdName scenario_group) = Some 3.
Proof.
  assert (H1 : 0 <= ad_number scenario_group < 2 ^ 53) by (cbn; lia).
  assert (H2 : 0 <= ad_number group12 < 2 ^ 53) by (cbn; lia).
  split; [exact H1|]. split; [exact H2|].
  exact (proj1 (generateAdName_number scenario_group group12 H1 H2)).
Defined.

Lemma generateNewFileName_extension_witness :
  name (asset raw_clip) = "raw_clip" +:+ "." +:+ "mov"
  /\ no_dot "mov" = true
  /\ Naming.generateNewFileName group12 raw_clip = "012_VID_story.mov".
Proof.
  split; [reflexivity|]. split; [reflexivity|].
  exact (generateNewFileName_extension group12 raw_clip "raw_clip" "mov" eq_refl eq_refl).
Defined.

(** ** Normalising and splitting names *)

Lemma squeeze_length b s : (String.length (squeeze b s) <= String.length s)%nat.
Proof.
  revert b. induction s as [|c r IH]; intros b; [reflexivity|].
  pose proof (IH true) as Ht. pose proof (IH false) as Hf.
  rewrite squeeze_cons. destruct (JS.is_underscore c); [destruct b|]; cbn; lia.
Qed.

(** X4: replacing the underscore runs a second time changes nothing, the
    replacement never makes a string longer, and it leaves a string alone
    exactly when the string has no two consecutive underscores; so every
    name [generateAdName] returns is already normalised. *)
Theorem replace_runs_normalises (s : string) (g : AdGroup) :
  JS.replace_runs (JS.replace_runs s) = JS.replace_runs s
  /\ (String.length (JS.replace_runs s) <= String.length s)%nat
  /\ (JS.replace_runs s = s <-> no_double_underscore s)
  /\ JS.replace_runs (Naming.generateAdName g) = Naming.generateAdName g.
Proof.
  assert (Hidem : forall t, JS.replace_runs (JS.replace_runs t) = JS.replace_runs t).
  { intros t. rewrite !replace_runs_eq. apply squeeze_id, squeeze_double_free. }
  split; [apply Hidem|]. split; [rewrite replace_runs_eq; apply squeeze_length|].
  split; [|apply Hidem].
  rewrite replace_runs_eq. split.
  - intros <-. apply double_free_sound, squeeze_double_free.
  - intros H. apply squeeze_id, double_free_iff, H.
Qed.

Lemma split_plain s : no_underscore s = true -> JS.split "_" s = [s].
Proof.
  induction s as [|c r IH]; [reflexivity|].
  cbn. intros [Hc Hr]%andb_true_iff. apply negb_true_iff in Hc.
  unfold JS.is_underscore in Hc. rewrite Hc, (IH Hr). reflexivity.
Qed.

Lemma split_join parts :
  parts <> [] -> Forall (fun p => no_underscore p = true) parts ->
  JS.split "_" (JS.join "_" parts) = parts.
Proof.
  intros Hne H. induction H as [|p ps Hp Hps IH]; [contradiction|].
  destruct ps as [|q r]; [apply split_plain, Hp|].
  rewrite join_cons_cons.
  change ("_" +:+ JS.join "_" (q :: r)) with (String "_" (JS.join "_" (q :: r))).
  rewrite split_app_sep, (split_plain _ Hp), IH by discriminate. reflexivity.
Qed.

Lemma plain_clean p :
  JS.truthy p = true -> no_underscore p = true -> clean p = true.
Proof.
  intros Ht Hn. unfold clean. rewrite Ht. cbn [andb].
  assert (Hdf : forall b, double_free b p = true).
  { clear Ht. induction p as [|c r IH]; intros b; [reflexivity|].
    cbn in Hn. apply andb_true_iff in Hn as [Hc Hr]. apply negb_true_iff in Hc.
    cbn. rewrite Hc. apply IH, Hr. }
  rewrite Hdf. cbn [andb].
  assert (Hs : starts_with_underscore p = false).
  { destruct p as [|c r]; [reflexivity|]. cbn in Hn |- *.
    apply andb_true_iff in Hn as [Hc _]. apply negb_true_iff, Hc. }
  assert (He : ends_with_underscore p = false).
  { clear Ht Hdf Hs. induction p as [|c r IH]; [reflexivity|].
    cbn in Hn. apply andb_true_iff in Hn as [Hc Hr]. apply negb_true_iff in Hc.
    destruct r; [exact Hc|]. apply IH, Hr. }
  rewrite Hs, He. reflexivity.
Qed.

(** X5: when every part pushed for a group is non-empty and contains no
    underscore, splitting the generated name at the underscores gives back
    exactly the pushed parts, in order. *)
Theorem generateAdName_split (g : AdGroup) :
  Forall (fun p => JS.truthy p = true /\ no_underscore p = true)
    (Naming.name_parts g) ->
  JS.split "_" (Naming.generateAdName g) = Naming.name_parts g.
Proof.
  intros H. unfold Naming.generateAdName.
  assert (Hc : Forall (fun p => clean p = true) (Naming.name_parts g))
    by (eapply List.Forall_impl; [|exact H]; intros p [Ht Hn]; apply plain_clean; assumption).
  assert (Hp : Forall (fun p => no_underscore p = true) (Naming.name_parts g))
    by (eapply List.Forall_impl; [|exact H]; intros p [_ Hn]; exact Hn).
  rewrite replace_runs_eq, (squeeze_id _ _ (proj1 (join_clean _ Hc))).
  apply split_join; [|exact Hp].
  rewrite name_parts_spec. destruct (spec_parts_shape g) as (q & r & ->).
  discriminate.
Qed.

Lemma generateAdName_split_witness :
  Forall (fun p => JS.truthy p = true /\ no_underscore p = true)
    (Naming.name_parts scenario_group)
  /\ JS.split "_" (Naming.generateAdName scenario_group)
     = ["003"; "Q4Launch"; "VID"; "Hook1"; "Jess"; "Offer"].
Proof.
  assert (H : Forall (fun p => JS.truthy p = true /\ no_underscore p = true)
                (Naming.name_parts scenario_group))
    by (repeat constructor).
  split; [exact H|]. exact (generateAdName_split scenario_group H).
Defined.

(** ** More on the group sorter *)

Section MoreSortFacts.
Context {A : Type}.

Lemma insert_sorted_ext (cmp cmp' : A -> A -> Z) x l :
  (forall b, In b l -> cmp x b = cmp' x b) ->
  Sorter.insert_sorted cmp x l = Sorter.insert_sorted cmp' x l.
Proof.
  induction l as [|y r IH]; intros H; [reflexivity|].
  cbn. rewrite <- (H y) by (left; reflexivity).
  destruct (cmp x y <=? 0); [reflexivity|].
  f_equal. apply IH. intros b Hb. apply H. right. exact Hb.
Qed.

Lemma sort_ext (cmp cmp' : A -> A -> Z) l :
  (forall a b, In a l -> In b l -> cmp a b = cmp' a b) ->
  Sorter.sort cmp l = Sorter.sort cmp' l.
Proof.
  induction l as [|x r IH]; intros H; [reflexivity|].
  cbn. rewrite <- IH by (intros a b Ha Hb; apply H; right; assumption).
  apply insert_sorted_ext. intros b Hb. apply H; [left; reflexivity|right].
  apply (Permutation_in _ (Permutation_sym (sort_perm cmp r))), Hb.
Qed.

Lemma sort_sorted (cmp : A -> A -> Z) l :
  StronglySorted (precedes cmp) l -> Sorter.sort cmp l = l.
Proof.
  induction 1 as [|x l Hs IH Hx]; [reflexivity|].
  cbn. rewrite IH. destruct l as [|y r]; [reflexivity|].
  cbn. apply Forall_inv in Hx. unfold precedes in Hx.
  apply Z.leb_le in Hx. rewrite Hx. reflexivity.
Qed.

Lemma StronglySorted_map {B} (R : A -> A -> Prop) (R' : B -> B -> Prop)
    (f : A -> B) l :
  (forall a b, In a l -> In b l -> R a b -> R' (f a) (f b)) ->
  StronglySorted R l -> StronglySorted R' (map f l).
Proof.
  intros H Hs. induction Hs as [|x l Hs IH Hx]; [constructor|].
  cbn. constructor.
  - apply IH. intros a b Ha Hb. apply H; right; assumption.
  - rewrite List.Forall_forall in Hx |- *. intros y Hy.
    apply in_map_iff in Hy as (z & <- & Hz).
    apply H; [left; reflexivity|right; exact Hz|apply Hx, Hz].
Qed.

End MoreSortFacts.

Lemma compareGroups_numbered lc a b :
  numbered a = true -> numbered b = true ->
  Sorter.compareGroups lc a b = first_number a - first_number b.
Proof.
  unfold numbered, first_number, Sorter.compareGroups.
  destruct (Sorter.extractNumber (Sorter.getFirstFilename a)); [|discriminate].
  destruct (Sorter.extractNumber (Sorter.getFirstFilename b)); [|discriminate].
  reflexivity.
Qed.

(** X6: when the first file name of every group starts with a digit (and
    the numbers are exactly representable), the sorted order does not
    depend on the collation at all, and the groups come out with their
    leading numbers in ascending order. *)
Theorem sortGroups_numbered (lc lc' : string -> string -> Z) (gs : list AdGroup) :
  forallb numbered gs = true ->
  forallb (fun g => Sorter.exact_name (Sorter.getFirstFilename g)) gs = true ->
  Sorter.sortGroups lc gs = Sorter.sortGroups lc' gs
  /\ StronglySorted Z.le (map first_number (Sorter.sortGroups lc gs)).
Proof.
  intros Hn _. rewrite forallb_forall in Hn. split.
  - apply sort_ext. intros a b Ha Hb.
    rewrite !compareGroups_numbered by (apply Hn; assumption). reflexivity.
  - assert (Hin : forall g, In g (Sorter.sortGroups lc gs) -> In g gs)
      by (intros g; apply Permutation_in, Permutation_sym, sort_perm).
    apply (StronglySorted_map (precedes (Sorter.compareGroups lc))).
    + intros a b Ha Hb. unfold precedes.
      rewrite compareGroups_numbered by (apply Hn, Hin; assumption). lia.
    + apply sort_strongly. split.
      * intros a b Ha Hb. unfold precedes.
        rewrite !compareGroups_numbered by (apply Hn; assumption). lia.
      * intros a b c Ha Hb Hc. unfold precedes.
        rewrite !compareGroups_numbered by (apply Hn; assumption). lia.
Qed.

Lemma sortGroups_numbered_witness :
  forallb numbered [g_12a; g_9b; g_one] = true
  /\ map first_number
       (Sorter.sortGroups Sorter.codeunit_compare [g_12a; g_9b; g_one])
     = [9; 9; 12]
  /\ StronglySorted Z.le
       (map first_number
          (Sorter.sortGroups Sorter.codeunit_compare [g_12a; g_9b; g_one])).
Proof.
  split; [reflexivity|]. split; [reflexivity|].
  exact (proj2 (sortGroups_numbered Sorter.codeunit_compare Sorter.codeunit_compare
                  [g_12a; g_9b; g_one] eq_refl eq_refl)).
Defined.

(** X7: with a consistent comparator, sorting groups that are already in
    comparator order returns them unchanged, ties included, so sorting
    twice gives the same list as sorting once. *)
Theorem sortGroups_idempotent (lc : string -> string -> Z) (gs : list AdGroup) :
  Sorter.consistentb (Sorter.compareGroups lc) gs = true ->
  forallb (fun g => Sorter.exact_name (Sorter.getFirstFilename g)) gs = true ->
  (StronglySorted (precedes (Sorter.compareGroups lc)) gs ->
   Sorter.sortGroups lc gs = gs)
  /\ Sorter.sortGroups lc (Sorter.sortGroups lc gs) = Sorter.sortGroups lc gs.
Proof.
  intros Hc _. split; [apply sort_sorted|].
  apply sort_sorted, sort_strongly, consistentb_on, Hc.
Qed.

Lemma sortGroups_idempotent_witness :
  Sorter.consistentb (Sorter.compareGroups Sorter.codeunit_compare)
    [g_alpha; g_12a; g_noassets; g_9b] = true
  /\ Sorter.sortGroups Sorter.codeunit_compare
       (Sorter.sortGroups Sorter.codeunit_compare [g_alpha; g_12a; g_noassets; g_9b])
     = [g_noassets; g_9b; g_12a; g_alpha].
Proof.
  split; [reflexivity|].
  exact (proj2 (sortGroups_idempotent Sorter.codeunit_compare
                  [g_alpha; g_12a; g_noassets; g_9b] eq_refl eq_refl)).
Defined.

(** ** More on the table *)

Lemma render_rows_length G seen rs :
  length (Table.render_rows G seen rs) = length rs.
Proof.
  revert seen. induction rs as [|r rs IH]; intros seen; [reflexivity|].
  cbn. f_equal. apply IH.
Qed.

Lemma totalAssets_from gs n :
  fold_left (fun sum g => (sum + length (assets g))%nat) gs n
  = (n + length (Table.rows gs))%nat.
Proof.
  revert n. induction gs as [|g gs IH]; intros n; [cbn; lia|].
  cbn [fold_left]. rewrite IH. unfold Table.rows. cbn [flat_map].
  rewrite length_app, length_imap. lia.
Qed.

(** X8: the asset count in the page header is the number of rows of the
    table below it, and sorting does not change it: it is the number of
    assets of all groups of the snapshot. *)
Theorem totalAssets_rows (lc : string -> string -> Z) (d : GroupedAssets) :
  Review.totalAssets (Sorter.sortedGroups lc (Some d))
  = length (Table.AssetTable (Sorter.sortedGroups lc (Some d)))
  /\ Review.totalAssets (Sorter.sortedGroups lc (Some d))
     = Review.totalAssets (groups d)
  /\ Review.totalAssets (groups d) = length (flat_map assets (groups d)).
Proof.
  unfold Review.totalAssets. rewrite !totalAssets_from. cbn [Nat.add].
  split; [unfold Table.AssetTable; rewrite render_rows_length; reflexivity|].
  assert (Hrows : forall gs, length (Table.rows gs) = length (flat_map assets gs)).
  { induction gs as [|g gs IH]; [reflexivity|].
    unfold Table.rows in *. cbn [flat_map]. rewrite !length_app, length_imap, IH.
    reflexivity. }
  split; [|apply Hrows].
  rewrite !Hrows. apply Permutation_length, Permutation_flat_map, Permutation_sym.
  apply sort_perm.
Qed.

(** X9: every row points back into its group: the row's group is one of
    the groups given to the table, and the asset at position [assetIndex]
    of that group's asset list is the row's asset. *)
Theorem rows_lookup (gs : list AdGroup) (r : Table.AssetRow) :
  In r (Table.rows gs) ->
  In (Table.row_group r) gs
  /\ assets (Table.row_group r) !! Table.assetIndex r = Some (Table.row_asset r).
Proof.
  unfold Table.rows. intros H. apply in_flat_map in H as (g & Hg & Hr).
  apply list_elem_of_In, elem_of_lookup_imap in Hr as (i & a & -> & Ha).
  cbn. auto.
Qed.

Lemma rows_lookup_witness :
  exists r, In r (Table.rows two_groups)
    /\ Table.assetIndex r = 1%nat
    /\ assets (Table.row_group r) !! 1%nat = Some (named_asset "9_b.mp4").
Proof.
  eexists. split; [right; left; reflexivity|]. split; [reflexivity|].
  exact (proj2 (rows_lookup two_groups _ (or_intror (or_introl eq_refl)))).
Defined.

Lemma unflagged_span_sum g n (f : nat -> bool) l :
  (forall i, f i = false) ->
  list_sum (map (fun v : AdGroup * ProcessedAsset * bool * nat =>
                   if snd (fst v) then snd v else 0%nat)
              (imap (fun i a => (g, a, f i, n)) l)) = 0%nat
  /\ List.filter (fun v : AdGroup * ProcessedAsset * bool * nat => snd (fst v))
       (imap (fun i a => (g, a, f i, n)) l) = [].
Proof.
  revert f. induction l as [|x l IH]; intros f Hf; [split; reflexivity|].
  destruct (IH (fun i => f (S i)) (fun i => Hf (S i))) as [H1 H2].
  rewrite imap_cons. cbn [map list_sum List.filter fst snd]. rewrite Hf.
  split; [exact H1|exact H2].
Qed.

Lemma group_span_sum g l n :
  list_sum (map (fun v : AdGroup * ProcessedAsset * bool * nat =>
                   if snd (fst v) then snd v else 0%nat)
              (imap (fun i a => (g, a, Nat.eqb i 0, n)) l))
  = match l with [] => 0%nat | _ => n end
  /\ length (List.filter (fun v : AdGroup * ProcessedAsset * bool * nat => snd (fst v))
              (imap (fun i a => (g, a, Nat.eqb i 0, n)) l))
     = match l with [] => 0%nat | _ => 1%nat end.
Proof.
  destruct l as [|a l]; [split; reflexivity|].
  destruct (unflagged_span_sum g n (fun i => Nat.eqb (S i) 0) l (fun i => eq_refl))
    as [H1 H2].
  rewrite imap_cons. cbn [map list_sum List.filter fst snd Nat.eqb length].
  split.
  - transitivity (n + 0)%nat; [|lia].
    change (list_sum (n :: ?t)) with (n + list_sum t)%nat. f_equal. exact H1.
  - f_equal. transitivity (length (@nil (AdGroup * ProcessedAsset * bool * nat)));
      [f_equal; exact H2|reflexivity].
Qed.

(** X10: for groups with distinct ids the spans tile the table: the
    spans of the rows flagged as first add up to the number of rows, and
    there is exactly one flagged row per group that has an asset. *)
Theorem AssetTable_spans (gs : list AdGroup) :
  List.NoDup (map group_id gs) ->
  list_sum (map row_span (Table.AssetTable gs)) = length (Table.AssetTable gs)
  /\ length (List.filter Table.isFirstInGroup (Table.AssetTable gs))
     = length (List.filter (fun g => negb (Nat.eqb (length (assets g)) 0)) gs).
Proof.
  intros Hnd.
  assert (Hv : map Table.row_view (Table.AssetTable gs) = Table.projection_spec gs)
    by (apply render_rows_projection; [exact Hnd|]; intros g _; apply not_elem_of_empty).
  assert (Hlen : length (Table.AssetTable gs) = length (Table.projection_spec gs))
    by (rewrite <- Hv, length_map; reflexivity).
  assert (Hs : map row_span (Table.AssetTable gs)
               = map (fun v : AdGroup * ProcessedAsset * bool * nat =>
                        if snd (fst v) then snd v else 0%nat)
                   (Table.projection_spec gs))
    by (rewrite <- Hv, map_map; reflexivity).
  assert (Hf : length (List.filter Table.isFirstInGroup (Table.AssetTable gs))
               = length (List.filter
                           (fun v : AdGroup * ProcessedAsset * bool * nat => snd (fst v))
                           (Table.projection_spec gs))).
  { rewrite <- Hv. clear. induction (Table.AssetTable gs) as [|r rs IH]; [reflexivity|].
    cbn [map List.filter]. unfold Table.row_view at 1. cbn [fst snd].
    destruct (Table.isFirstInGroup r); cbn [length]; rewrite IH; reflexivity. }
  rewrite Hs, Hf, Hlen. clear. unfold Table.projection_spec.
  induction gs as [|g gs [IH1 IH2]]; [split; reflexivity|].
  cbn [flat_map List.filter].
  rewrite map_app, list_sum_app, List.filter_app, !length_app, length_imap.
  destruct (group_span_sum g (assets g) (length (assets g))) as [H1 H2].
  rewrite H1, H2, IH1, IH2.
  destruct (assets g); cbn; split; reflexivity.
Qed.

Lemma AssetTable_spans_witness :
  List.NoDup (map group_id two_groups)
  /\ map row_span (Table.AssetTable two_groups) = [2; 0; 1]%nat
  /\ list_sum (map row_span (Table.AssetTable two_groups)) = 3%nat.
Proof.
  assert (H : List.NoDup (map group_id two_groups)).
  { cbn. repeat constructor; cbn; intros Hin;
      repeat (destruct Hin as [Hin|Hin]; [discriminate|]); exact Hin. }
  split; [exact H|]. split; [reflexivity|].
  exact (proj1 (AssetTable_spans two_groups H)).
Defined.

(** ** More on the handlers *)

(** X11: no handler of the page rejects: whatever the server answers,
    each of the five handlers returns normally. Either it logs nothing, or
    it logs exactly one line, under its own label, and then leaves the
    page's data as they were: data change only in a run that logs nothing. *)
Theorem handlers_swallow_errors {St : Type} (api : Client.Backend St)
    (i : Client.Intent) (w : Client.World St) :
  fst (Client.handle api i w) = inr tt
  /\ (Client.console (snd (Client.handle api i w)) = Client.console w
      \/ exists e,
           Client.console (snd (Client.handle api i w))
           = Client.console w ++ [(console_label i, e)]
           /\ Client.data (snd (Client.handle api i w)) = Client.data w).
Proof.
  destruct i as [g u|g a u|a t|n|f v]; cbn [Client.handle console_label].
  - unfold Client.handleGroupUpdate, Client.try_catch, Client.bind,
      Client.api_updateGroup, Client.api_getGroups, Client.call,
      Client.setData, Client.console_error.
    destruct (Client.updateGroup api g u (Client.store w)) as [[e|g'] s1];
      cbn [fst snd Client.store Client.sent Client.data Client.console]; [eauto|].
    destruct (Client.getGroups api s1) as [[e|d] s2]; cbn; eauto.
  - unfold Client.handleAssetUpdate, Client.try_catch, Client.bind,
      Client.api_updateAsset, Client.api_getGroups, Client.call,
      Client.setData, Client.console_error.
    destruct (Client.updateAsset api g a u (Client.store w)) as [[e|g'] s1];
      cbn [fst snd Client.store Client.sent Client.data Client.console]; [eauto|].
    destruct (Client.getGroups api s1) as [[e|d] s2]; cbn; eauto.
  - unfold Client.handleRegroupAsset, Client.try_catch, Client.bind,
      Client.api_regroupAsset, Client.call, Client.setData, Client.console_error.
    destruct (Client.regroupAsset api a t (Client.store w)) as [[e|d] s1];
      cbn; eauto.
  - unfold Client.handleRenumber, Client.try_catch, Client.bind,
      Client.fetch_renumber, Client.api_getGroups, Client.call, Client.setData,
      Client.console_error, Client.ret, Client.throw.
    destruct (Client.renumber api n (Client.store w)) as [[e|[|]] s1];
      cbn [fst snd Client.store Client.sent Client.data Client.console]; [eauto| |eauto].
    destruct (Client.getGroups api s1) as [[e|d] s2]; cbn; eauto.
  - destruct (Client.data w) as [d|] eqn:Hd.
    + rewrite (handleBulkApply_run api f v w d Hd). cbv zeta.
      destruct (Client.first_rejected api _ (Client.store w)) as [[k e]|];
        [cbn; eauto|].
      destruct (Client.getGroups api _) as [[e|d'] s']; cbn; eauto.
    + unfold Client.handleBulkApply. rewrite Hd. cbn. auto.
Qed.

(** ** More on the start-number field *)

Lemma leading_digits_all ds :
  all_chars JS.is_digit ds = true -> JS.leading_digits ds = ds.
Proof.
  induction ds as [|c r IH]; [reflexivity|].
  cbn. intros [Hc Hr]%andb_true_iff. rewrite Hc, (IH Hr). reflexivity.
Qed.

Lemma parseInt_digit c r :
  JS.is_digit c = true ->
  Toolbar.parseInt (String c r)
  = Some (JS.parse_digits 0 (JS.leading_digits (String c r))).
Proof.
  intros Hc. destruct c as [[] [] [] [] [] [] [] []]; try discriminate Hc; reflexivity.
Qed.

Lemma parseInt_String_of n : Toolbar.parseInt (JS.String_of n) = Some n.
Proof.
  destruct (Z.leb_spec 0 n) as [Hn|Hn].
  - destruct (String_of_nonneg n Hn) as (Hd & Ht & Hv).
    destruct (JS.String_of n) as [|c r] eqn:E; [discriminate|].
    pose proof Hd as Hd'. cbn in Hd'. apply andb_true_iff in Hd' as [Hc _].
    rewrite (parseInt_digit _ _ Hc), (leading_digits_all _ Hd), Hv. reflexivity.
  - destruct n as [|p|p]; try lia.
    destruct (String_of_nonneg (Z.pos p) ltac:(lia)) as (Hd & Ht & Hv).
    unfold JS.String_of in *. cbn [Z.to_int NilZero.string_of_int] in *.
    unfold Toolbar.parseInt. cbn [Toolbar.skip_spaces].
    change (Toolbar.is_space "-") with false. cbv iota beta.
    rewrite (leading_digits_all _ Hd), Ht, Hv. reflexivity.
Qed.

(** X12: the start-number field never holds zero, and typing the decimal
    form of any integer other than zero of magnitude below 2^53 -
    negative ones included - stores exactly that integer, while typing 0
    stores 1. *)
Theorem onChange_startNumber_values (value : string) (n : Z) :
  Toolbar.onChange_startNumber value <> 0
  /\ (- 2 ^ 53 < n < 2 ^ 53 ->
      Toolbar.onChange_startNumber (JS.String_of n) = (if n =? 0 then 1 else n)).
Proof.
  unfold Toolbar.onChange_startNumber. split.
  - unfold Toolbar.or_one. destruct (Toolbar.parseInt value) as [m|]; [|lia].
    destruct (Z.eqb_spec m 0); lia.
  - intros _. rewrite parseInt_String_of. reflexivity.
Qed.

Lemma onChange_startNumber_values_witness :
  - 2 ^ 53 < -5 < 2 ^ 53
  /\ Toolbar.onChange_startNumber (JS.String_of (-5)) = -5.
Proof.
  assert (H : - 2 ^ 53 < -5 < 2 ^ 53) by lia.
  split; [exact H|]. exact (proj2 (onChange_startNumber_values "" (-5)) H).
Defined.

(** ** [SetupPage] *)

Lemma trimStart_split s :
  exists a, s = a +:+ Setup.trimStart s /\ all_chars Setup.is_white a = true.
Proof.
  induction s as [|c r (a & Ha & Hw)]; [exists ""; split; reflexivity|].
  cbn [Setup.trimStart]. destruct (Setup.is_white c) eqn:E.
  - exists (String c a). rewrite append_cons, <- Ha. cbn. rewrite E, Hw. auto.
  - exists "". split; reflexivity.
Qed.

Lemma trimEnd_split s :
  exists b, s = Setup.trimEnd s +:+ b /\ all_chars Setup.is_white b = true.
Proof.
  induction s as [|c r (b & Hb & Hw)]; [exists ""; split; reflexivity|].
  cbn [Setup.trimEnd]. destruct (Setup.trimEnd r) as [|c2 t] eqn:E.
  - rewrite append_nil in Hb. subst b. destruct (Setup.is_white c) eqn:Ec.
    + exists (String c r). rewrite append_nil. cbn. rewrite Ec, Hw. auto.
    + exists r. rewrite append_cons, append_nil. auto.
  - exists b. rewrite append_cons, <- Hb. auto.
Qed.

Lemma trimStart_starts s : starts_white (Setup.trimStart s) = false.
Proof.
  induction s as [|c r IH]; [reflexivity|].
  cbn [Setup.trimStart]. destruct (Setup.is_white c) eqn:E; [exact IH|exact E].
Qed.

Lemma trimEnd_ends s : ends_white (Setup.trimEnd s) = false.
Proof.
  induction s as [|c r IH]; [reflexivity|].
  cbn [Setup.trimEnd]. destruct (Setup.trimEnd r) as [|c2 t] eqn:E.
  - destruct (Setup.is_white c) eqn:Ec; [reflexivity|exact Ec].
  - exact IH.
Qed.

Lemma trimEnd_starts s :
  starts_white s = false -> starts_white (Setup.trimEnd s) = false.
Proof.
  destruct s as [|c r]; [reflexivity|]. cbn [starts_white Setup.trimEnd].
  intros Hc. destruct (Setup.trimEnd r); [rewrite Hc|]; exact Hc.
Qed.

Lemma trimEnd_truthy s :
  starts_white s = false -> JS.truthy (Setup.trimEnd s) = JS.truthy s.
Proof.
  destruct s as [|c r]; [reflexivity|]. cbn [starts_white Setup.trimEnd].
  intros Hc. destruct (Setup.trimEnd r); [rewrite Hc|]; reflexivity.
Qed.

Lemma trim_blank s :
  JS.truthy (Setup.trim s) = negb (all_chars Setup.is_white s).
Proof.
  unfold Setup.trim. rewrite (trimEnd_truthy _ (trimStart_starts s)).
  induction s as [|c r IH]; [reflexivity|].
  cbn [Setup.trimStart all_chars]. destruct (Setup.is_white c); [exact IH|reflexivity].
Qed.

(** X13: submitting a folder path that is empty or only white space
    sends nothing to the analyzer and navigates nowhere; it only sets the
    error message asking for a path, and leaves [loading] as it was. *)
Theorem handleSubmit_blank {St : Type}
    (analyze : string -> St -> (Client.Error + GroupedAssets) * St)
    (w : Setup.World St) :
  all_chars Setup.is_white (Setup.folderPath (Setup.page w)) = true ->
  Setup.handleSubmit analyze w
  = {| Setup.store := Setup.store w;
       Setup.analyzed := Setup.analyzed w;
       Setup.page :=
         {| Setup.loading := Setup.loading (Setup.page w);
            Setup.error := Some "Please enter a folder path or Google Drive link";
            Setup.folderPath := Setup.folderPath (Setup.page w) |};
       Setup.navigated := Setup.navigated w |}.
Proof.
  intros H. unfold Setup.handleSubmit. rewrite trim_blank, H. reflexivity.
Qed.

Lemma handleSubmit_blank_witness :
  all_chars Setup.is_white (Setup.folderPath (Setup.page (setup_world "   "))) = true
  /\ Setup.analyzed (Setup.handleSubmit toy_analyze (setup_world "   ")) = []
  /\ Setup.navigated (Setup.handleSubmit toy_analyze (setup_world "   ")) = [].
Proof.
  split; [reflexivity|].
  rewrite (handleSubmit_blank toy_analyze (setup_world "   ") eq_refl).
  split; reflexivity.
Defined.

(** X14: submitting a path with a character that is not white space
    sends exactly one analyze request. Its [folder_path] is the typed path
    without the white space around it: non-empty, with no white space at
    either end. The page navigates to [/review] exactly when the analyzer
    succeeds, and then shows no error; when it fails the page stays and
    shows the error's message. In both cases [loading] ends [false] and
    the typed path is kept. *)
Theorem handleSubmit_request {St : Type}
    (analyze : string -> St -> (Client.Error + GroupedAssets) * St)
    (w : Setup.World St) :
  all_chars Setup.is_white (Setup.folderPath (Setup.page w)) = false ->
  let path := Setup.folderPath (Setup.page w) in
  let w' := Setup.handleSubmit analyze w in
  Setup.analyzed w' = Setup.analyzed w ++ [Setup.trim path]
  /\ Setup.store w' = snd (analyze (Setup.trim path) (Setup.store w))
  /\ (exists a b, path = a +:+ Setup.trim path +:+ b
        /\ all_chars Setup.is_white a = true /\ all_chars Setup.is_white b = true)
  /\ JS.truthy (Setup.trim path) = true
  /\ starts_white (Setup.trim path) = false
  /\ ends_white (Setup.trim path) = false
  /\ Setup.loading (Setup.page w') = false
  /\ Setup.folderPath (Setup.page w') = path
  /\ match fst (analyze (Setup.trim path) (Setup.store w)) with
     | inr _ => Setup.navigated w' = Setup.navigated w ++ ["/review"]
                /\ Setup.error (Setup.page w') = None
     | inl e => Setup.navigated w' = Setup.navigated w
                /\ Setup.error (Setup.page w') = Some e
     end.
Proof.
  intros H path w'. subst w'.
  assert (Hsplit : exists a b, path = a +:+ Setup.trim path +:+ b
            /\ all_chars Setup.is_white a = true /\ all_chars Setup.is_white b = true).
  { destruct (trimStart_split path) as (a & Ha & Hwa).
    destruct (trimEnd_split (Setup.trimStart path)) as (b & Hb & Hwb).
    exists a, b. unfold Setup.trim. rewrite <- Hb, <- Ha. auto. }
  assert (Ht : JS.truthy (Setup.trim path) = true)
    by (rewrite trim_blank; unfold path; rewrite H; reflexivity).
  assert (Hs : starts_white (Setup.trim path) = false)
    by (apply trimEnd_starts, trimStart_starts).
  assert (He : ends_white (Setup.trim path) = false) by apply trimEnd_ends.
  unfold Setup.handleSubmit. fold path. rewrite Ht. cbn [negb]. cbv zeta.
  destruct (analyze (Setup.trim path) (Setup.store w)) as [[e|d] s'];
    cbn; repeat split; auto.
Qed.

Lemma handleSubmit_request_witness :
  all_chars Setup.is_white
    (Setup.folderPath (Setup.page (setup_world "  /assets "))) = false
  /\ Setup.analyzed (Setup.handleSubmit toy_analyze (setup_world "  /assets "))
     = ["/assets"]
  /\ Setup.navigated (Setup.handleSubmit toy_analyze (setup_world "  /assets "))
     = ["/review"].
Proof.
  split; [reflexivity|]. split.
  - exact (proj1 (handleSubmit_request toy_analyze (setup_world "  /assets ") eq_refl)).
  - reflexivity.
Defined.

(** ** More on the move drop-down *)

Lemma other_groups_length gs g :
  List.NoDup (map group_id gs) -> In g gs ->
  S (length (List.filter
               (fun x => negb (String.eqb (group_id x) (group_id g))) gs))
  = length gs.
Proof.
  induction gs as [|x r IH]; intros Hnd Hin; [destruct Hin|].
  cbn [map] in Hnd. apply List.NoDup_cons_iff in Hnd as [Hx Hnd].
  cbn [List.filter length]. destruct (String.eqb_spec (group_id x) (group_id g)) as [E|E].
  - cbn [negb]. f_equal.
    assert (Hall : forall y, In y r ->
              negb (String.eqb (group_id y) (group_id g)) = true).
    { intros y Hy. apply negb_true_iff, String.eqb_neq. intros Ey.
      apply Hx. rewrite E, <- Ey. apply in_map, Hy. }
    clear -Hall. induction r as [|y r IH]; [reflexivity|].
    cbn [List.filter]. rewrite (Hall y) by (left; reflexivity).
    cbn [length]. f_equal. apply IH. intros z Hz. apply Hall. right. exact Hz.
  - cbn [negb length]. f_equal. apply IH; [exact Hnd|].
    destruct Hin as [->|Hin]; [contradiction|exact Hin].
Qed.

(** X15: for groups with distinct ids, the move drop-down of a row of one
    of these groups has one option per group other than the row's own,
    each id once, between the placeholder and the new-group option: as many
    options as there are groups, plus one. *)
Theorem move_options_count (gs : list AdGroup) (row : Table.AssetRow) :
  List.NoDup (map group_id gs) -> In (Table.row_group row) gs ->
  length (Table.move_options gs row) = S (length gs)
  /\ List.NoDup (map group_id
       (List.filter
          (fun g => negb (String.eqb (group_id g) (group_id (Table.row_group row))))
          gs))
  /\ exists ids, Table.move_options gs row = "" :: ids ++ ["new"]
       /\ ~ In (group_id (Table.row_group row)) ids.
Proof.
  intros Hnd Hin. split; [|split].
  - unfold Table.move_options. cbn [length].
    rewrite length_app, length_map. cbn [length].
    rewrite <- (other_groups_length gs _ Hnd Hin). lia.
  - clear Hin. induction gs as [|x r IH]; [constructor|].
    cbn [map] in Hnd. apply List.NoDup_cons_iff in Hnd as [Hx Hnd].
    cbn [List.filter]. destruct (negb _); [|apply IH, Hnd].
    cbn [map]. constructor; [|apply IH, Hnd].
    intros H. apply Hx. apply in_map_iff in H as (y & Hy & Hf).
    apply filter_In in Hf as [Hf _]. rewrite <- Hy. apply in_map, Hf.
  - eexists. split; [reflexivity|].
    intros H. apply in_map_iff in H as (y & Hy & Hf).
    apply filter_In in Hf as [_ Hf].
    apply negb_true_iff, String.eqb_neq in Hf. contradiction.
Qed.

Lemma move_options_count_witness :
  let row := {| Table.row_asset := named_asset "9_a.mp4";
                Table.row_group := g_one; Table.assetIndex := 0 |} in
  In row (Table.rows two_groups)
  /\ List.NoDup (map group_id two_groups)
  /\ In (Table.row_group row) two_groups
  /\ length (Table.move_options two_groups row) = 3%nat.
Proof.
  cbv zeta.
  assert (H : List.NoDup (map group_id two_groups)).
  { cbn. repeat constructor; cbn; intros Hin;
      repeat (destruct Hin as [Hin|Hin]; [discriminate|]); exact Hin. }
  assert (Hg : In g_one two_groups) by (left; reflexivity).
  split; [left; reflexivity|]. split; [exact H|]. split; [exact Hg|].
  exact (proj1 (move_options_count two_groups
                  {| Table.row_asset := named_asset "9_a.mp4";
                     Table.row_group := g_one; Table.assetIndex := 0 |} H Hg)).
Defined.
